(** * ConflictGame: the scenario graph navigator

    A shallow embedding of [js/game-engine.js] (class [GameEngine]) and of the
    storage manager it writes through (class [StorageManager]), followed by
    the properties of the navigator: structural validation, choice gating,
    advancing, going back, restarting, resuming, the progress metric and the
    recording of completed scenarios.

    Modelling conventions.
    - A JavaScript property that may be missing is an [option]; [None] stands
      for both [undefined] and [null].  Truthiness is written out: a string is
      truthy when it is present and not empty, an object or an array when it
      is present.
    - The object [scenario.nodes] is used as a dictionary from node ids to
      nodes: its own properties are a [gmap string Node].  A property read
      [scenario.nodes[k]] finds an own property first and then the members
      every object inherits from [Object.prototype] ([constructor],
      [toString], ...), which are truthy and are no nodes.
    - A scenario document is one of the content format: [id] a string,
      [metadata] an object, [nodes] a dictionary of node objects with
      [choices] arrays of choice objects, each where it is there.  The
      scenario index is [null] or a document with a [scenarios] array, and
      the document in storage is one that [saveData] wrote.
    - Methods that assign to [this] are functions from the engine state to a
      result and a new engine state; a [throw] is the result [Throw].
    - [fetch] and the clock are parameters of the methods that use them.
    - Numbers that are counts are [nat]; the progress percentage, a quotient,
      is a rational.
    - [localStorage] is a store holding at most one saved document; writes
      to it succeed. *)

From Stdlib Require Import QArith Qminmax.
From stdpp Require Import base option list strings gmap fin_maps.

Local Open Scope string_scope.
Local Open Scope list_scope.

(** ** JavaScript values *)

(** Truthiness of a property holding a string: [undefined], [null] and the
    empty string are falsy. *)
Definition truthy (v : option string) : bool :=
  match v with
  | Some s => negb (String.eqb s "")
  | None => false
  end.

(** ** Scenario documents *)

(** [choice.requirements]. *)
Record Requirements := {
  previousChoices : option (list string);
  forbiddenChoices : option (list string)
}.

(** One entry of [node.choices]. *)
Record Choice := {
  cid : string;
  text : string;
  strategy : option string;
  nextNode : option string;
  requirements : option Requirements
}.

(** One value of [scenario.nodes].  The presentation payload ([content],
    [feedback]) is not read by the engine and is left out. *)
Record Node := {
  type : option string;
  choices : option (list Choice)
}.

Record Metadata := {
  title : string
}.

(** A parsed scenario file. *)
Record Scenario := {
  sid : option string;
  metadata : option Metadata;
  nodes : option (gmap string Node)
}.

(** One entry of [scenarioIndex.scenarios]. *)
Record ScenarioInfo := {
  info_id : string;
  file : string;
  unlocked : bool
}.

(** One entry of [choiceHistory]. *)
Record HistoryEntry := {
  nodeId : string;
  choiceId : string;
  choiceText : string;
  entryStrategy : option string;
  timestamp : string
}.

(** What a method throws. *)
Inductive Error :=
| NoScenarioOrNode                    (* 'No scenario loaded or current node' *)
| NodeHasNoChoices                    (* 'Current node has no choices' *)
| ChoiceNotFound (choiceId : string)  (* `Choice ${choiceId} not found` *)
| NotInIndex (scenarioId : string)    (* `Scenario ${scenarioId} not found in index` *)
| FailedToLoad (status : nat)         (* `Failed to load scenario: ${status}` *)
| InvalidStructure                    (* 'Invalid scenario structure' *)
| FetchRejected                       (* the promise of fetch or of json() rejects *)
| TypeError.                          (* a property read on undefined or null *)

Inductive result (A : Type) :=
| Return (v : A)
| Throw (e : Error).
Arguments Return {A} v.
Arguments Throw {A} e.

(** What [getCurrentNode] evaluates to: [null], [undefined], a node of the
    scenario, or a member that [scenario.nodes] inherits from
    [Object.prototype] (a function, or the prototype itself), which has
    neither [choices] nor [type]. *)
Inductive NodeValue :=
| JsNull
| JsUndefined
| JsNode (n : Node)
| JsInherited.

(** The property names an object parsed from JSON inherits from
    [Object.prototype]. *)
Definition objectPrototypeNames : list string :=
  [ "constructor"; "hasOwnProperty"; "isPrototypeOf"; "propertyIsEnumerable";
    "toLocaleString"; "toString"; "valueOf"; "__proto__";
    "__defineGetter__"; "__defineSetter__"; "__lookupGetter__";
    "__lookupSetter__" ].

Definition inheritedName (k : string) : bool :=
  bool_decide (k ∈ objectPrototypeNames).

(** The property read [nodes[k]] on the object whose own properties are
    [ns]. *)
Definition nodesGet (ns : gmap string Node) (k : string) : NodeValue :=
  match ns !! k with
  | Some n => JsNode n
  | None => if inheritedName k then JsInherited else JsUndefined
  end.

(** Truthiness of what such a property read gives. *)
Definition truthyValue (v : NodeValue) : bool :=
  match v with
  | JsNode _ | JsInherited => true
  | JsNull | JsUndefined => false
  end.

(** ** validateScenario *)

(** The test made on one choice: [choice.nextNode && !scenario.nodes[choice.nextNode]]
    makes validation fail. *)
Definition choiceTargetOk (ns : gmap string Node) (c : Choice) : bool :=
  match nextNode c with
  | Some t => if truthy (Some t) then truthyValue (nodesGet ns t) else true
  | None => true
  end.

(** The test made on one node: every choice of [node.choices], when the
    node has choices. *)
Definition nodeTargetsOk (ns : gmap string Node) (n : Node) : bool :=
  match choices n with
  | Some cs => forallb (choiceTargetOk ns) cs
  | None => true
  end.

(** The body of the [try] block of [validateScenario].  On a document of
    the content format no property read of the block is made on [undefined]
    or [null], so the block always returns. *)
Definition validateScenarioBody (scenario : Scenario) : result bool :=
  if negb (truthy (sid scenario)) then Return false
  else match metadata scenario with
  | None => Return false
  | Some _ =>
    match nodes scenario with
    | None => Return false
    | Some ns =>
      if negb (truthyValue (nodesGet ns "start")) then Return false
      else Return (forallb (fun kn => nodeTargetsOk ns kn.2) (map_to_list ns))
    end
  end.

(** [validateScenario]: the [catch] clause turns an error into [false]. *)
Definition validateScenario (scenario : Scenario) : bool :=
  match validateScenarioBody scenario with
  | Return valid => valid
  | Throw _ => false
  end.

(** ** StorageManager *)

Module StorageManager.

(** [userProgress]. *)
Record UserProgress := {
  currentScenario : option string;
  currentNode : option string;
  choiceHistory : list HistoryEntry
}.

Record Preferences := {
  viewMode : string;
  autoSave : bool;
  soundEnabled : bool
}.

Record Statistics := {
  totalChoicesMade : nat;
  scenariosCompleted : nat;
  strategiesUsed : gmap string nat
}.

(** The document kept under the storage key. *)
Record Data := {
  userProgress : UserProgress;
  completedScenarios : list (option string);
  userPreferences : Preferences;
  statistics : Statistics
}.

(** The manager: its [defaultState] object and the content of
    [localStorage] under [storageKey] ([None] when nothing is stored).
    [defaultState] is part of the state because [loadData] hands out its
    nested objects when nothing is stored, and the callers update them in
    place. *)
Record t := {
  defaultState : Data;
  localStorage : option Data
}.

Definition clearedProgress : UserProgress :=
  {| currentScenario := None; currentNode := None; choiceHistory := [] |}.

(** The [defaultState] the constructor builds. *)
Definition initialDefaults : Data :=
  {| userProgress := clearedProgress;
     completedScenarios := [];
     userPreferences :=
       {| viewMode := "visual-novel"; autoSave := true; soundEnabled := true |};
     statistics :=
       {| totalChoicesMade := 0;
          scenariosCompleted := 0;
          strategiesUsed :=
            list_to_map [("collaborating", 0); ("compromising", 0);
                         ("competing", 0); ("accommodating", 0);
                         ("avoiding", 0); ("active_listening", 0)] |} |}.

Definition new : t :=
  {| defaultState := initialDefaults; localStorage := None |}.

(** [mergeWithDefaults] on a stored document that has its four top-level
    fields and their fields: the copy of [defaultState] gets every field
    from the loaded document.  For [statistics], the spread of
    [loaded.statistics] already puts the loaded [strategiesUsed] in place,
    so the spread that follows copies the loaded counters over themselves:
    a default counter that the stored document lacks does not come back. *)
Definition mergeWithDefaults (sm : t) (loaded : Data) : Data :=
  {| userProgress := userProgress loaded;
     completedScenarios := completedScenarios loaded;
     userPreferences := userPreferences loaded;
     statistics :=
       {| totalChoicesMade := totalChoicesMade (statistics loaded);
          scenariosCompleted := scenariosCompleted (statistics loaded);
          strategiesUsed :=
            strategiesUsed (statistics loaded)
              ∪ strategiesUsed (statistics loaded) |} |}.

(** [loadData]: the merged stored document, or the shallow copy
    [{ ...this.defaultState }] when nothing is stored. *)
Definition loadData (sm : t) : Data :=
  match localStorage sm with
  | Some stored => mergeWithDefaults sm stored
  | None => defaultState sm
  end.

(** The [defaultState] after a caller of [loadData] has updated the
    document in place.  The shallow copy shares [completedScenarios] and
    [statistics] with [defaultState], so a [push] or a counter update made
    on the copy is made on [defaultState] too; assignments to the copy's
    own fields ([data.userProgress = ...]) are not.  A document that came
    from [localStorage] shares nothing. *)
Definition defaultsAfter (sm : t) (data : Data) : Data :=
  match localStorage sm with
  | Some _ => defaultState sm
  | None =>
      {| userProgress := userProgress (defaultState sm);
         completedScenarios := completedScenarios data;
         userPreferences := userPreferences (defaultState sm);
         statistics := statistics data |}
  end.

(** [saveData] after in-place updates of a loaded document. *)
Definition saveData (sm : t) (data : Data) : t :=
  {| defaultState := defaultsAfter sm data; localStorage := Some data |}.

Definition saveProgress (scenarioId nodeId : option string)
    (history : list HistoryEntry) (sm : t) : t :=
  let data := loadData sm in
  saveData sm
    {| userProgress :=
         {| currentScenario := scenarioId;
            currentNode := nodeId;
            choiceHistory := history |};
       completedScenarios := completedScenarios data;
       userPreferences := userPreferences data;
       statistics :=
         {| totalChoicesMade := length history;
            scenariosCompleted := scenariosCompleted (statistics data);
            strategiesUsed := strategiesUsed (statistics data) |} |}.

Definition loadProgress (sm : t) : option UserProgress :=
  let progress := userProgress (loadData sm) in
  if truthy (currentScenario progress) && truthy (currentNode progress)
  then Some progress else None.

Definition markScenarioComplete (scenarioId : option string) (sm : t) : t :=
  let data := loadData sm in
  let fresh := negb (bool_decide (scenarioId ∈ completedScenarios data)) in
  saveData sm
    {| userProgress := clearedProgress;
       completedScenarios :=
         if fresh then completedScenarios data ++ [scenarioId]
         else completedScenarios data;
       userPreferences := userPreferences data;
       statistics :=
         {| totalChoicesMade := totalChoicesMade (statistics data);
            scenariosCompleted :=
              if fresh then S (scenariosCompleted (statistics data))
              else scenariosCompleted (statistics data);
            strategiesUsed := strategiesUsed (statistics data) |} |}.

(** [recordStrategyUsage]: only a counter that exists is incremented and
    saved. *)
Definition recordStrategyUsage (strategy : string) (sm : t) : t :=
  let data := loadData sm in
  match strategiesUsed (statistics data) !! strategy with
  | Some n =>
      saveData sm
        {| userProgress := userProgress data;
           completedScenarios := completedScenarios data;
           userPreferences := userPreferences data;
           statistics :=
             {| totalChoicesMade := totalChoicesMade (statistics data);
                scenariosCompleted := scenariosCompleted (statistics data);
                strategiesUsed :=
                  <[strategy := S n]> (strategiesUsed (statistics data)) |} |}
  | None => sm
  end.

Definition isScenarioCompleted (scenarioId : option string) (sm : t) : bool :=
  bool_decide (scenarioId ∈ completedScenarios (loadData sm)).

Definition clearCurrentProgress (sm : t) : t :=
  let data := loadData sm in
  saveData sm
    {| userProgress := clearedProgress;
       completedScenarios := completedScenarios data;
       userPreferences := userPreferences data;
       statistics := statistics data |}.

Definition clearAllData (sm : t) : t :=
  {| defaultState := defaultState sm; localStorage := None |}.

End StorageManager.

(** ** Helpers for arrays *)

(** [Array.prototype.pop]: the array without its last element, and that
    element; [None] on the empty array. *)
Fixpoint pop {A : Type} (l : list A) : option (list A * A) :=
  match l with
  | [] => None
  | x :: l' =>
      match pop l' with
      | None => Some ([], x)
      | Some (r, y) => Some (x :: r, y)
      end
  end.

(** What [fetch(file)] followed by [response.json()] gives. *)
Inductive Response :=
| Rejected                                  (* the request itself fails *)
| Responded (ok : bool) (status : nat) (body : option Scenario).
                                            (* body [None]: not parsable *)

(** ** GameEngine *)

Module GameEngine.

Record t := {
  currentScenario : option Scenario;
  currentNode : option string;
  choiceHistory : list HistoryEntry;
  scenarioIndex : option (list ScenarioInfo);
  isLoading : bool;
  storage : StorageManager.t
}.

(** The engine the constructor builds. *)
Definition new (sm : StorageManager.t) : t :=
  {| currentScenario := None;
     currentNode := Some "start";
     choiceHistory := [];
     scenarioIndex := None;
     isLoading := false;
     storage := sm |}.

Definition setLoading (b : bool) (e : t) : t :=
  {| currentScenario := currentScenario e;
     currentNode := currentNode e;
     choiceHistory := choiceHistory e;
     scenarioIndex := scenarioIndex e;
     isLoading := b;
     storage := storage e |}.

Definition setStorage (sm : StorageManager.t) (e : t) : t :=
  {| currentScenario := currentScenario e;
     currentNode := currentNode e;
     choiceHistory := choiceHistory e;
     scenarioIndex := scenarioIndex e;
     isLoading := isLoading e;
     storage := sm |}.

(** Assignment to [this.currentNode] and [this.choiceHistory]. *)
Definition setPosition (node : option string) (history : list HistoryEntry)
    (e : t) : t :=
  {| currentScenario := currentScenario e;
     currentNode := node;
     choiceHistory := history;
     scenarioIndex := scenarioIndex e;
     isLoading := isLoading e;
     storage := storage e |}.

Definition setScenario (sc : Scenario) (e : t) : t :=
  {| currentScenario := Some sc;
     currentNode := currentNode e;
     choiceHistory := choiceHistory e;
     scenarioIndex := scenarioIndex e;
     isLoading := isLoading e;
     storage := storage e |}.

(** [this.storage.saveProgress(this.currentScenario.id, this.currentNode,
    this.choiceHistory)], for a scenario that is there. *)
Definition persist (sc : Scenario) (e : t) : t :=
  setStorage
    (StorageManager.saveProgress (sid sc) (currentNode e) (choiceHistory e)
       (storage e)) e.

Definition getCurrentNode (e : t) : result NodeValue :=
  match currentScenario e with
  | None => Return JsNull
  | Some sc =>
      match currentNode e with
      | None => Return JsNull
      | Some k =>
          if negb (truthy (Some k)) then Return JsNull
          else match nodes sc with
               | None => Throw TypeError
               | Some ns => Return (nodesGet ns k)
               end
      end
  end.

(** The callback of [filter] in [getAvailableChoices], with
    [previousChoiceIds = this.choiceHistory.map(h => h.choiceId)]. *)
Definition choiceAvailable (history : list HistoryEntry) (choice : Choice) : bool :=
  let previousChoiceIds := map choiceId history in
  match requirements choice with
  | Some req =>
      let hasRequired :=
        match previousChoices req with
        | Some required =>
            forallb (fun reqChoice => bool_decide (reqChoice ∈ previousChoiceIds))
              required
        | None => true
        end in
      if negb hasRequired then false
      else
        let hasForbidden :=
          match forbiddenChoices req with
          | Some forbidden =>
              existsb (fun forbiddenChoice =>
                         bool_decide (forbiddenChoice ∈ previousChoiceIds))
                forbidden
          | None => false
          end in
        if hasForbidden then false else true
  | None => true
  end.

Definition getAvailableChoices (e : t) : result (list Choice) :=
  match getCurrentNode e with
  | Throw err => Throw err
  | Return (JsNode n) =>
      match choices n with
      | Some cs => Return (List.filter (choiceAvailable (choiceHistory e)) cs)
      | None => Return []
      end
  | Return _ => Return []
  end.

(** [currentNode && currentNode.type === 'resolution'], as a condition. *)
Definition isScenarioComplete (e : t) : result bool :=
  match getCurrentNode e with
  | Throw err => Throw err
  | Return (JsNode n) => Return (bool_decide (type n = Some "resolution"))
  | Return _ => Return false
  end.

Definition canGoBack (e : t) : bool :=
  negb (Nat.eqb (length (choiceHistory e)) 0).

(** [makeChoice(choiceId)]; [now] is [new Date().toISOString()]. *)
Definition makeChoice (choiceId now : string) (e : t) : result NodeValue * t :=
  match currentScenario e with
  | None => (Throw NoScenarioOrNode, e)
  | Some sc =>
    match currentNode e with
    | None => (Throw NoScenarioOrNode, e)
    | Some here =>
      if negb (truthy (Some here)) then (Throw NoScenarioOrNode, e)
      else
        match getCurrentNode e with
        | Throw err => (Throw err, e)
        | Return (JsNode n) =>
          match choices n with
          | None => (Throw NodeHasNoChoices, e)
          | Some cs =>
            match List.find (fun c => String.eqb (cid c) choiceId) cs with
            | None => (Throw (ChoiceNotFound choiceId), e)
            | Some choice =>
              let entry :=
                {| nodeId := here;
                   choiceId := choiceId;
                   choiceText := text choice;
                   entryStrategy := strategy choice;
                   timestamp := now |} in
              let e1 := setPosition (currentNode e) (choiceHistory e ++ [entry]) e in
              let e2 :=
                match strategy choice with
                | Some s =>
                    if truthy (Some s)
                    then setStorage (StorageManager.recordStrategyUsage s (storage e1)) e1
                    else e1
                | None => e1
                end in
              let e3 := setPosition (nextNode choice) (choiceHistory e2) e2 in
              let e4 := persist sc e3 in
              match getCurrentNode e4 with
              | Throw err => (Throw err, e4)
              | Return next =>
                match isScenarioComplete e4 with
                | Throw err => (Throw err, e4)
                | Return true =>
                    (Return next,
                     setStorage
                       (StorageManager.markScenarioComplete (sid sc) (storage e4)) e4)
                | Return false => (Return next, e4)
                end
              end
            end
          end
        | Return _ => (Throw NodeHasNoChoices, e)
        end
    end
  end.

(** [goBack()]. *)
Definition goBack (e : t) : result NodeValue * t :=
  match pop (choiceHistory e) with
  | None => (Return JsNull, e)
  | Some (rest, lastChoice) =>
      let e1 := setPosition (Some (nodeId lastChoice)) rest e in
      match currentScenario e1 with
      | None => (Throw TypeError, e1)
      | Some sc =>
          let e2 := persist sc e1 in
          match getCurrentNode e2 with
          | Throw err => (Throw err, e2)
          | Return v => (Return v, e2)
          end
      end
  end.

(** [restartScenario()]. *)
Definition restartScenario (e : t) : t :=
  match currentScenario e with
  | None => e
  | Some sc => persist sc (setPosition (Some "start") [] e)
  end.

(** The value of [progressPercent]:
    [Math.min((currentProgress / totalNodes) * 100, 100)], with JavaScript
    numbers read as rationals.  A division by zero gives [Infinity] there
    ([currentProgress] is at least one), and the minimum is then 100. *)
Definition percentage (currentProgress totalNodes : nat) : Q :=
  match totalNodes with
  | O => 100
  | S _ =>
      Qmin ((inject_Z (Z.of_nat currentProgress) / inject_Z (Z.of_nat totalNodes)) * 100)
           100
  end.

(** The object [getProgress] returns. *)
Record Progress := {
  progressNode : option string;
  choicesMade : nat;
  progressPercent : Q;
  progressCanGoBack : bool;
  isComplete : bool
}.

(** [getProgress()]; [None] is the [null] returned without a scenario. *)
Definition getProgress (e : t) : result (option Progress) :=
  match currentScenario e with
  | None => Return None
  | Some sc =>
      match nodes sc with
      | None => Throw TypeError
      | Some ns =>
          let totalNodes := size ns in
          let currentProgress := length (choiceHistory e) + 1 in
          match isScenarioComplete e with
          | Throw err => Throw err
          | Return complete =>
              Return (Some
                {| progressNode := currentNode e;
                   choicesMade := length (choiceHistory e);
                   progressPercent := percentage currentProgress totalNodes;
                   progressCanGoBack := canGoBack e;
                   isComplete := complete |})
          end
      end
  end.

(** The body of the [try] block of [loadScenario], on the engine with
    [isLoading] already set. *)
Definition loadScenarioBody (fetch : string -> Response)
    (scenarioId : option string) (e : t) : result Scenario * t :=
  match scenarioIndex e with
  | None => (Throw TypeError, e)
  | Some scenarios =>
      match List.find (fun s => bool_decide (Some (info_id s) = scenarioId)) scenarios with
      | None => (Throw (NotInIndex (default "" scenarioId)), e)
      | Some scenarioInfo =>
          match fetch (file scenarioInfo) with
          | Rejected => (Throw FetchRejected, e)
          | Responded ok status body =>
              if negb ok then (Throw (FailedToLoad status), e)
              else match body with
                   | None => (Throw FetchRejected, e)
                   | Some scenarioData =>
                       if negb (validateScenario scenarioData)
                       then (Throw InvalidStructure, e)
                       else (Return scenarioData,
                             setPosition (Some "start") []
                               (setScenario scenarioData e))
                   end
          end
      end
  end.

(** [loadScenario(scenarioId)]: the [finally] clause resets [isLoading]
    on both exits. *)
Definition loadScenario (fetch : string -> Response)
    (scenarioId : option string) (e : t) : result Scenario * t :=
  let (r, e') := loadScenarioBody fetch scenarioId (setLoading true e) in
  (r, setLoading false e').

(** [resumeFromProgress(savedProgress)], on the progress object that
    [loadProgress] hands over. *)
Definition resumeFromProgress (fetch : string -> Response)
    (savedProgress : StorageManager.UserProgress) (e : t)
    : result NodeValue * t :=
  match loadScenario fetch (StorageManager.currentScenario savedProgress) e with
  | (Throw err, e') => (Throw err, e')
  | (Return _, e') =>
      let e'' :=
        setPosition (StorageManager.currentNode savedProgress)
          (StorageManager.choiceHistory savedProgress) e' in
      match getCurrentNode e'' with
      | Throw err => (Throw err, e'')
      | Return v => (Return v, e'')
      end
  end.

End GameEngine.

(** * Vocabulary of the properties *)

Import GameEngine.

(** What [validateScenario] accepts: a non-empty [id], a [metadata] and a
    [nodes] field, a node ["start"], and a node behind every non-empty
    [nextNode]. *)
Definition accepted (G : Scenario) : Prop :=
  (∃ s, sid G = Some s ∧ s ≠ "") ∧
  is_Some (metadata G) ∧
  ∃ ns, nodes G = Some ns ∧
    is_Some (ns !! "start") ∧
    ∀ k n cs c target,
      ns !! k = Some n → choices n = Some cs → c ∈ cs →
      nextNode c = Some target → target ≠ "" → is_Some (ns !! target).

(** The reading under which the three fields only have to be there and
    every [nextNode] that is there has to name a node. *)
Definition fieldsPresentAndTargetsResolve (G : Scenario) : Prop :=
  is_Some (sid G) ∧
  is_Some (metadata G) ∧
  ∃ ns, nodes G = Some ns ∧
    is_Some (ns !! "start") ∧
    ∀ k n cs c target,
      ns !! k = Some n → choices n = Some cs → c ∈ cs →
      nextNode c = Some target → is_Some (ns !! target).

(** What [validateScenario] lets through on a document of the content
    format: as [accepted], but a non-empty [nextNode] may also be the name
    of a member every object inherits, which the property read finds. *)
Definition validates (G : Scenario) : Prop :=
  (∃ s, sid G = Some s ∧ s ≠ "") ∧
  is_Some (metadata G) ∧
  ∃ ns, nodes G = Some ns ∧
    is_Some (ns !! "start") ∧
    ∀ k n cs c target,
      ns !! k = Some n → choices n = Some cs → c ∈ cs →
      nextNode c = Some target → target ≠ "" →
      is_Some (ns !! target) ∨ inheritedName target = true.

(** No [nextNode] of the document is the name of a member that every
    object inherits. *)
Definition noInheritedTarget (G : Scenario) : Prop :=
  ∀ ns k n cs c target,
    nodes G = Some ns → ns !! k = Some n → choices n = Some cs → c ∈ cs →
    nextNode c = Some target → inheritedName target = false.

(** A check of [noInheritedTarget] that computes. *)
Definition noInheritedTargetb (G : Scenario) : bool :=
  match nodes G with
  | Some ns =>
      forallb
        (fun kn =>
           forallb
             (fun c => match nextNode c with
                       | Some target => negb (inheritedName target)
                       | None => true
                       end)
             (default [] (choices kn.2)))
        (map_to_list ns)
  | None => true
  end.

(** The choices of the current node: the node's choice list, empty when the
    engine is at no node or the node has no list. *)
Definition currentChoices (e : GameEngine.t) : list Choice :=
  match getCurrentNode e with
  | Return (JsNode n) => default [] (choices n)
  | _ => []
  end.

(** A choice id occurs as the [choiceId] of some entry of the history. *)
Definition madeBefore (history : list HistoryEntry) (id : string) : Prop :=
  ∃ h, h ∈ history ∧ choiceId h = id.

(** The gating rule: the choice has no requirements, or every id of
    [requirements.previousChoices] was chosen before and no id of
    [requirements.forbiddenChoices] was.  A list that is missing constrains
    nothing. *)
Definition requirementsMet (history : list HistoryEntry) (c : Choice) : Prop :=
  requirements c = None ∨
  ∃ req, requirements c = Some req ∧
    (∀ id, id ∈ default [] (previousChoices req) → madeBefore history id) ∧
    (∀ id, id ∈ default [] (forbiddenChoices req) → ¬ madeBefore history id).

(** The choice list of a node, empty when the node has none. *)
Definition rawChoices (n : Node) : list Choice := default [] (choices n).

(** The value of [scenario.nodes[id]] as [getCurrentNode] reads it. *)
Definition nodeAt (ns : gmap string Node) (id : option string) : NodeValue :=
  match id with
  | Some k =>
      if truthy (Some k) then nodesGet ns k else JsNull
  | None => JsNull
  end.

Definition isResolution (v : NodeValue) : bool :=
  match v with
  | JsNode n => bool_decide (type n = Some "resolution")
  | _ => false
  end.

(** The history entry [makeChoice] pushes. *)
Definition entryFor (here id now : string) (c : Choice) : HistoryEntry :=
  {| nodeId := here; choiceId := id; choiceText := text c;
     entryStrategy := strategy c; timestamp := now |}.

(** The storage after the calls [makeChoice] makes on it, in their order:
    [recordStrategyUsage] for a truthy strategy, [saveProgress], and
    [markScenarioComplete] when the node reached is a resolution. *)
Definition storageAfterChoice (sc : Scenario) (c : Choice)
    (history : list HistoryEntry) (complete : bool)
    (sm : StorageManager.t) : StorageManager.t :=
  let sm1 :=
    match strategy c with
    | Some s => if truthy (Some s) then StorageManager.recordStrategyUsage s sm else sm
    | None => sm
    end in
  let sm2 := StorageManager.saveProgress (sid sc) (nextNode c) history sm1 in
  if complete then StorageManager.markScenarioComplete (sid sc) sm2 else sm2.

(** The engine a successful [makeChoice] leaves. *)
Definition advanced (sc : Scenario) (ns : gmap string Node)
    (here id now : string) (c : Choice) (e : GameEngine.t) : GameEngine.t :=
  {| currentScenario := currentScenario e;
     currentNode := nextNode c;
     choiceHistory := choiceHistory e ++ [entryFor here id now c];
     scenarioIndex := scenarioIndex e;
     isLoading := isLoading e;
     storage :=
       storageAfterChoice sc c (choiceHistory e ++ [entryFor here id now c])
         (isResolution (nodeAt ns (nextNode c))) (storage e) |}.

(** The engine [goBack] leaves when it pops [x] from a history [rest ++ [x]]. *)
Definition wentBack (sc : Scenario) (rest : list HistoryEntry) (x : HistoryEntry)
    (e : GameEngine.t) : GameEngine.t :=
  persist sc (setPosition (Some (nodeId x)) rest e).

(** The progress object under [userProgress] in [localStorage]. *)
Definition storedProgress (e : GameEngine.t) : option StorageManager.UserProgress :=
  StorageManager.userProgress <$> StorageManager.localStorage (storage e).

(** [advancesTo e n e']: [n] calls of [makeChoice] lead from [e] to [e'],
    each with the id of a choice that [getAvailableChoices] returns at that
    point, and each returning normally. *)
Inductive advancesTo : GameEngine.t → nat → GameEngine.t → Prop :=
| advances_none e : advancesTo e 0 e
| advances_step e id now avail c v e1 n e2 :
    getAvailableChoices e = Return avail → c ∈ avail → cid c = id →
    makeChoice id now e = (Return v, e1) →
    advancesTo e1 n e2 →
    advancesTo e (S n) e2.

(** [n] calls of [goBack], each of which returns a node; [None] when one of
    them throws or has nothing to return to. *)
Fixpoint goBackTimes (n : nat) (e : GameEngine.t) : option GameEngine.t :=
  match n with
  | O => Some e
  | S m =>
      match goBack e with
      | (Return (JsNode _), e') => goBackTimes m e'
      | _ => None
      end
  end.

(** Two engines at the same place of the same scenario. *)
Definition samePosition (e1 e2 : GameEngine.t) : Prop :=
  currentScenario e1 = currentScenario e2 ∧
  currentNode e1 = currentNode e2 ∧
  choiceHistory e1 = choiceHistory e2.

(** [id] is the id of a node of the scenario. *)
Definition validNodeId (sc : Scenario) (id : option string) : Prop :=
  ∃ k ns, id = Some k ∧ nodes sc = Some ns ∧ is_Some (ns !! k).

(** The engines the navigator goes through on scenario [sc]: the one a
    successful load of [sc] leaves, and those left by any call of
    [makeChoice], [goBack] or [restartScenario] from there. *)
Inductive reachable (sc : Scenario) : GameEngine.t → Prop :=
| reach_load fetch id e e0 :
    loadScenario fetch id e = (Return sc, e0) → reachable sc e0
| reach_makeChoice e id now r e' :
    reachable sc e → makeChoice id now e = (r, e') → reachable sc e'
| reach_goBack e r e' :
    reachable sc e → goBack e = (r, e') → reachable sc e'
| reach_restart e :
    reachable sc e → reachable sc (restartScenario e).

(** Every choice of every node has a non-empty [nextNode] that is not the
    name of a member every object inherits. *)
Definition everyChoiceHasTarget (sc : Scenario) : Prop :=
  ∀ ns k n cs c,
    nodes sc = Some ns → ns !! k = Some n → choices n = Some cs → c ∈ cs →
    ∃ target, nextNode c = Some target ∧ target ≠ "" ∧
              inheritedName target = false.

(** The engine is on scenario [sc], at one of its nodes, and every entry of
    the history was recorded at one of its nodes. *)
Definition wellPlaced (sc : Scenario) (e : GameEngine.t) : Prop :=
  currentScenario e = Some sc ∧
  validNodeId sc (currentNode e) ∧
  Forall (fun h => validNodeId sc (Some (nodeId h))) (choiceHistory e).

(** A check of [everyChoiceHasTarget] that computes. *)
Definition everyChoiceHasTargetb (sc : Scenario) : bool :=
  match nodes sc with
  | Some ns =>
      forallb
        (fun kn =>
           forallb
             (fun c => truthy (nextNode c)
                       && negb (inheritedName (default "" (nextNode c))))
             (rawChoices kn.2))
        (map_to_list ns)
  | None => true
  end.

(** The completion record kept in storage, as [loadData] reads it. *)
Definition completedIn (sm : StorageManager.t) : list (option string) :=
  StorageManager.completedScenarios (StorageManager.loadData sm).

Definition completedCount (sm : StorageManager.t) : nat :=
  StorageManager.scenariosCompleted
    (StorageManager.statistics (StorageManager.loadData sm)).

(** * Sample scenarios and engines

    The sample scenario: [start] offers [A] (to [nodeX]) and [C] (to
    [nodeX], only after [A]); [nodeX] offers [B] (to [nodeY]); [nodeY] is a
    resolution. *)

Definition plainNode : Node := {| type := Some "scene"; choices := None |}.

(** A document whose [id] is the empty string. *)
Definition emptyIdScenario : Scenario :=
  {| sid := Some "";
     metadata := Some {| title := "Untitled" |};
     nodes := Some {[ "start" := plainNode ]} |}.

(** A document with a choice whose [nextNode] is the empty string. *)
Definition emptyTargetScenario : Scenario :=
  {| sid := Some "scenario-e";
     metadata := Some {| title := "Empty target" |};
     nodes :=
       Some {[ "start" :=
                 {| type := Some "scene";
                    choices :=
                      Some [ {| cid := "a"; text := "Go"; strategy := None;
                                nextNode := Some ""; requirements := None |} ] |} ]} |}.

Definition choiceA : Choice :=
  {| cid := "A"; text := "Talk it over"; strategy := Some "collaborating";
     nextNode := Some "nodeX"; requirements := None |}.

Definition choiceC : Choice :=
  {| cid := "C"; text := "Follow up"; strategy := Some "compromising";
     nextNode := Some "nodeX";
     requirements :=
       Some {| previousChoices := Some ["A"]; forbiddenChoices := None |} |}.

Definition choiceB : Choice :=
  {| cid := "B"; text := "Agree on a plan"; strategy := None;
     nextNode := Some "nodeY"; requirements := None |}.

Definition sampleNodes : gmap string Node :=
  <[ "start" := {| type := Some "scene"; choices := Some [choiceA; choiceC] |} ]>
  (<[ "nodeX" := {| type := Some "scene"; choices := Some [choiceB] |} ]>
  (<[ "nodeY" := {| type := Some "resolution"; choices := Some [] |} ]> ∅)).

Definition sampleScenario : Scenario :=
  {| sid := Some "scenario-001";
     metadata := Some {| title := "The Email Misunderstanding" |};
     nodes := Some sampleNodes |}.

Definition sampleIndex : list ScenarioInfo :=
  [ {| info_id := "scenario-001"; file := "scenarios/scenario-001.json";
       unlocked := true |} ].

Definition sampleFetch (path : string) : Response :=
  if String.eqb path "scenarios/scenario-001.json"
  then Responded true 200 (Some sampleScenario)
  else Responded false 404 None.

(** The engine after [loadScenarioIndex], before any scenario is loaded. *)
Definition idleEngine : GameEngine.t :=
  {| currentScenario := None;
     currentNode := Some "start";
     choiceHistory := [];
     scenarioIndex := Some sampleIndex;
     isLoading := false;
     storage := StorageManager.new |}.

(** The engine right after the sample scenario is loaded. *)
Definition startEngine : GameEngine.t :=
  (loadScenario sampleFetch (Some "scenario-001") idleEngine).2.

Definition afterA : GameEngine.t :=
  (makeChoice "A" "2024-05-01T10:00:00.000Z" startEngine).2.

Definition afterB : GameEngine.t :=
  (makeChoice "B" "2024-05-01T10:01:00.000Z" afterA).2.

(** A scenario whose only choice has an inherited name as [nextNode]. *)
Definition inheritedTargetScenario : Scenario :=
  {| sid := Some "scenario-inherited";
     metadata := Some {| title := "Inherited target" |};
     nodes :=
       Some {[ "start" :=
                 {| type := Some "scene";
                    choices :=
                      Some [ {| cid := "go"; text := "Go on";
                                strategy := None;
                                nextNode := Some "constructor";
                                requirements := None |} ] |} ]} |}.

Definition inheritedTargetStart : GameEngine.t :=
  {| currentScenario := Some inheritedTargetScenario;
     currentNode := Some "start";
     choiceHistory := [];
     scenarioIndex := Some [];
     isLoading := false;
     storage := StorageManager.new |}.

(** A stored document that lists one scenario twice as completed. *)
Definition duplicateDocument : StorageManager.Data :=
  {| StorageManager.userProgress := StorageManager.clearedProgress;
     StorageManager.completedScenarios := [Some "other"; Some "other"];
     StorageManager.userPreferences :=
       StorageManager.userPreferences StorageManager.initialDefaults;
     StorageManager.statistics :=
       StorageManager.statistics StorageManager.initialDefaults |}.

(** The engine after [A] on the sample scenario, over that document. *)
Definition afterADuplicates : GameEngine.t :=
  setStorage
    {| StorageManager.defaultState := StorageManager.initialDefaults;
       StorageManager.localStorage := Some duplicateDocument |}
    afterA.

(** A scenario whose only choice has no [nextNode]. *)
Definition openEndedScenario : Scenario :=
  {| sid := Some "scenario-open";
     metadata := Some {| title := "Open ended" |};
     nodes :=
       Some {[ "start" :=
                 {| type := Some "scene";
                    choices :=
                      Some [ {| cid := "leave"; text := "Walk away";
                                strategy := Some "avoiding";
                                nextNode := None; requirements := None |} ] |} ]} |}.

Definition openEndedFetch (path : string) : Response :=
  Responded true 200 (Some openEndedScenario).

Definition openEndedIdle : GameEngine.t :=
  {| currentScenario := None;
     currentNode := Some "start";
     choiceHistory := [];
     scenarioIndex :=
       Some [ {| info_id := "scenario-open"; file := "scenarios/open.json";
                 unlocked := true |} ];
     isLoading := false;
     storage := StorageManager.new |}.

Definition openEndedStart : GameEngine.t :=
  (loadScenario openEndedFetch (Some "scenario-open") openEndedIdle).2.

Definition openEndedLeft : GameEngine.t :=
  (makeChoice "leave" "2024-05-01T10:00:00.000Z" openEndedStart).2.

(** * Further methods

    The methods of [StorageManager] and [GameEngine] around the navigator,
    and the breadcrumb handler of [UIManager] that drives [goBack]. *)

(** The argument of [updatePreferences]: an object with some of the
    preference fields. *)
Record PreferencesPatch := {
  patchViewMode : option string;
  patchAutoSave : option bool;
  patchSoundEnabled : option bool
}.

(** [{ ...data.userPreferences, ...preferences }]. *)
Definition spreadPreferences (base : StorageManager.Preferences)
    (patch : PreferencesPatch) : StorageManager.Preferences :=
  {| StorageManager.viewMode :=
       default (StorageManager.viewMode base) (patchViewMode patch);
     StorageManager.autoSave :=
       default (StorageManager.autoSave base) (patchAutoSave patch);
     StorageManager.soundEnabled :=
       default (StorageManager.soundEnabled base) (patchSoundEnabled patch) |}.

Definition getUserPreferences (sm : StorageManager.t) : StorageManager.Preferences :=
  StorageManager.userPreferences (StorageManager.loadData sm).

Definition updatePreferences (preferences : PreferencesPatch)
    (sm : StorageManager.t) : StorageManager.t :=
  let data := StorageManager.loadData sm in
  StorageManager.saveData sm
    {| StorageManager.userProgress := StorageManager.userProgress data;
       StorageManager.completedScenarios := StorageManager.completedScenarios data;
       StorageManager.userPreferences :=
         spreadPreferences (StorageManager.userPreferences data) preferences;
       StorageManager.statistics := StorageManager.statistics data |}.

Definition getStatistics (sm : StorageManager.t) : StorageManager.Statistics :=
  StorageManager.statistics (StorageManager.loadData sm).

(** What [response.json()] parses from the index file: the document
    [null], or a document with a [scenarios] array. *)
Inductive IndexDocument :=
| IndexNull
| IndexScenarios (scenarios : list ScenarioInfo).

(** What [fetch('scenarios/scenario-index.json')] followed by
    [response.json()] gives; the body is [None] when it cannot be parsed. *)
Inductive IndexResponse :=
| IndexRejected
| IndexResponded (ok : bool) (status : nat) (body : option IndexDocument).

(** The index [loadScenarioIndex] falls back to. *)
Definition fallbackIndex : list ScenarioInfo :=
  [ {| info_id := "scenario-001"; file := "scenarios/scenario-001.json";
       unlocked := true |} ].

(** Assignment to [this.scenarioIndex]; [None] is [null]. *)
Definition setIndex (index : option (list ScenarioInfo)) (e : GameEngine.t)
    : GameEngine.t :=
  {| currentScenario := currentScenario e;
     currentNode := currentNode e;
     choiceHistory := choiceHistory e;
     scenarioIndex := index;
     isLoading := isLoading e;
     storage := storage e |}.

(** [loadScenarioIndex()]: every failure inside the [try] block ends in the
    [catch] clause, which installs the fallback index; a document that was
    parsed is assigned as it is, also when it is [null]. *)
Definition loadScenarioIndex (response : IndexResponse) (e : GameEngine.t)
    : GameEngine.t :=
  match response with
  | IndexRejected => setIndex (Some fallbackIndex) e
  | IndexResponded ok status body =>
      if negb ok then setIndex (Some fallbackIndex) e
      else match body with
           | Some (IndexScenarios scenarios) => setIndex (Some scenarios) e
           | Some IndexNull => setIndex None e
           | None => setIndex (Some fallbackIndex) e
           end
  end.

(** [initialize()]: the saved progress, or [null] ([None]). *)
Definition initialize (response : IndexResponse) (e : GameEngine.t)
    : option StorageManager.UserProgress * GameEngine.t :=
  let e' := loadScenarioIndex response e in
  (StorageManager.loadProgress (storage e'), e').

(** [getAvailableScenarios()]. *)
Definition getAvailableScenarios (e : GameEngine.t) : list ScenarioInfo :=
  match scenarioIndex e with
  | None => []
  | Some scenarios =>
      List.filter
        (fun scenario =>
           unlocked scenario
           || StorageManager.isScenarioCompleted (Some (info_id scenario)) (storage e))
        scenarios
  end.

(** The loop of [UIManager.goBackToChoice]: at most [steps] calls of
    [goBack], stopping when [canGoBack()] is false; a [throw] of [goBack]
    leaves the loop. *)
Fixpoint goBackLoop (steps : nat) (e : GameEngine.t) : result unit * GameEngine.t :=
  match steps with
  | O => (Return tt, e)
  | S rest =>
      if negb (canGoBack e) then (Return tt, e)
      else match goBack e with
           | (Throw err, e') => (Throw err, e')
           | (Return _, e') => goBackLoop rest e'
           end
  end.

(** [UIManager.goBackToChoice(targetIndex)]:
    [stepsBack = history.length - targetIndex], the loop, and then
    [renderCurrentNode()] and [announceToScreenReader(...)].  These two
    read the engine and write to the page; they assign nothing in the engine
    or the storage, and they can throw (a node without [content], a missing
    element of the page).  Their outcome on an engine is the parameter
    [present]. *)
Definition goBackToChoice (present : GameEngine.t → result unit)
    (targetIndex : Z) (e : GameEngine.t) : result unit * GameEngine.t :=
  let stepsBack := (Z.of_nat (length (choiceHistory e)) - targetIndex)%Z in
  match goBackLoop (Z.to_nat stepsBack) e with
  | (Throw err, e') => (Throw err, e')
  | (Return _, e') => (present e', e')
  end.

(** Following the history from a node: each entry must have been recorded
    at the node reached so far and name a choice listed there; the result is
    the node id the last choice leads to. *)
Fixpoint replay (ns : gmap string Node) (here : option string)
    (history : list HistoryEntry) : option (option string) :=
  match history with
  | [] => Some here
  | h :: rest =>
      match here with
      | Some k =>
          if String.eqb k (nodeId h)
          then match ns !! k with
               | Some n =>
                   match List.find (fun c => String.eqb (cid c) (choiceId h))
                           (rawChoices n) with
                   | Some c => replay ns (nextNode c) rest
                   | None => None
                   end
               | None => None
               end
          else None
      | None => None
      end
  end.

(** The strategy counters after [makeChoice] has passed [strategy] to
    [recordStrategyUsage]: a truthy strategy that has a counter is counted,
    any other is not. *)
Definition countedStrategy (strategy : option string) (used : gmap string nat)
    : gmap string nat :=
  match strategy with
  | Some s =>
      if truthy (Some s)
      then match used !! s with
           | Some n => <[s := S n]> used
           | None => used
           end
      else used
  | None => used
  end.

(** The document in storage after a successful [makeChoice] of [c] on
    scenario [sc], from the document [data] read before, with the new
    history [history]; [complete] tells whether the node reached is a
    resolution. *)
Definition documentAfterChoice (sc : Scenario) (c : Choice)
    (history : list HistoryEntry) (complete : bool)
    (data : StorageManager.Data) : StorageManager.Data :=
  let known := bool_decide (sid sc ∈ StorageManager.completedScenarios data) in
  {| StorageManager.userProgress :=
       if complete then StorageManager.clearedProgress
       else {| StorageManager.currentScenario := sid sc;
               StorageManager.currentNode := nextNode c;
               StorageManager.choiceHistory := history |};
     StorageManager.completedScenarios :=
       if complete && negb known
       then StorageManager.completedScenarios data ++ [sid sc]
       else StorageManager.completedScenarios data;
     StorageManager.userPreferences := StorageManager.userPreferences data;
     StorageManager.statistics :=
       {| StorageManager.totalChoicesMade := length history;
          StorageManager.scenariosCompleted :=
            if complete && negb known
            then S (StorageManager.scenariosCompleted (StorageManager.statistics data))
            else StorageManager.scenariosCompleted (StorageManager.statistics data);
          StorageManager.strategiesUsed :=
            countedStrategy (strategy c)
              (StorageManager.strategiesUsed (StorageManager.statistics data)) |} |}.

(** One call of a navigation method, whatever its outcome. *)
Inductive navigates : GameEngine.t → GameEngine.t → Prop :=
| nav_makeChoice e id now r e' : makeChoice id now e = (r, e') → navigates e e'
| nav_goBack e r e' : goBack e = (r, e') → navigates e e'
| nav_restart e : navigates e (restartScenario e).

(** * Properties *)

(** ** Truthiness and list helpers *)

Lemma truthy_Some (s : string) : truthy (Some s) = true ↔ s ≠ "".
Proof.
  unfold truthy. destruct (String.eqb_spec s ""); simpl; split; congruence.
Qed.

Lemma truthy_true (v : option string) :
  truthy v = true ↔ ∃ s, v = Some s ∧ s ≠ "".
Proof.
  destruct v as [s|].
  - rewrite truthy_Some. split; [eauto | intros (s' & [= <-] & H); exact H].
  - split; [discriminate | intros (s & H & _); discriminate].
Qed.

Lemma forallb_elem_of {A : Type} (f : A → bool) (l : list A) :
  forallb f l = true ↔ ∀ x, x ∈ l → f x = true.
Proof.
  rewrite forallb_forall. split; intros H x Hx; apply H; by apply list_elem_of_In.
Qed.

Lemma existsb_elem_of {A : Type} (f : A → bool) (l : list A) :
  existsb f l = true ↔ ∃ x, x ∈ l ∧ f x = true.
Proof.
  rewrite existsb_exists. split; intros (x & Hx & Hf); exists x; split; auto;
    by apply list_elem_of_In.
Qed.

Lemma pop_snoc {A : Type} (l : list A) (x : A) : pop (l ++ [x]) = Some (l, x).
Proof.
  induction l as [|y l IH]; simpl; [reflexivity|]. by rewrite IH.
Qed.

Lemma pop_None {A : Type} (l : list A) : pop l = None ↔ l = [].
Proof.
  destruct l as [|y l]; simpl; [done|].
  destruct (pop l) as [[r z]|]; split; discriminate.
Qed.

Lemma pop_Some {A : Type} (l r : list A) (x : A) : pop l = Some (r, x) → l = r ++ [x].
Proof.
  revert r. induction l as [|y l IH]; intros r; simpl; [discriminate|].
  destruct (pop l) as [[r' z]|] eqn:E.
  - intros [= <- <-]. simpl. f_equal. by apply IH.
  - intros [= <- <-]. apply pop_None in E. by subst.
Qed.

(** ** Structural validation *)

Lemma truthyValue_nodesGet (ns : gmap string Node) (k : string) :
  truthyValue (nodesGet ns k) = true ↔
  is_Some (ns !! k) ∨ inheritedName k = true.
Proof.
  unfold nodesGet. destruct (ns !! k) as [n|]; simpl.
  - split; [eauto | done].
  - destruct (inheritedName k); simpl.
    + split; [by right | done].
    + split; [discriminate | intros [[? [=]]|[=]]].
Qed.

Lemma nodesGet_own (ns : gmap string Node) (k : string) (n : Node) :
  ns !! k = Some n → nodesGet ns k = JsNode n.
Proof. intros H. unfold nodesGet. by rewrite H. Qed.

Lemma nodesGet_JsNode (ns : gmap string Node) (k : string) (n : Node) :
  nodesGet ns k = JsNode n → ns !! k = Some n.
Proof.
  unfold nodesGet. destruct (ns !! k) as [n'|]; [congruence|].
  by destruct (inheritedName k).
Qed.

Lemma choiceTargetOk_true (ns : gmap string Node) (c : Choice) :
  choiceTargetOk ns c = true ↔
  ∀ target, nextNode c = Some target → target ≠ "" →
            is_Some (ns !! target) ∨ inheritedName target = true.
Proof.
  unfold choiceTargetOk. destruct (nextNode c) as [t|].
  - destruct (truthy (Some t)) eqn:Ht.
    + rewrite truthyValue_nodesGet. apply truthy_Some in Ht.
      split; [intros H ? [= <-] _; exact H | intros H; by apply H].
    + split; [|done]. intros _ ? [= <-] Hne.
      apply truthy_Some in Hne. congruence.
  - split; [intros _ ? [=] | done].
Qed.

Lemma nodeTargetsOk_true (ns : gmap string Node) (n : Node) :
  nodeTargetsOk ns n = true ↔
  ∀ cs c target, choices n = Some cs → c ∈ cs →
    nextNode c = Some target → target ≠ "" →
    is_Some (ns !! target) ∨ inheritedName target = true.
Proof.
  unfold nodeTargetsOk. destruct (choices n) as [cs|].
  - rewrite forallb_elem_of. split.
    + intros H ? c t [= <-] Hc. by apply choiceTargetOk_true, H.
    + intros H c Hc. apply choiceTargetOk_true. intros t. by apply (H cs).
  - split; [intros _ ? ? ? [=] | done].
Qed.

(** What [validateScenario] lets through. *)
Lemma validateScenario_validates (G : Scenario) :
  validateScenario G = true ↔ validates G.
Proof.
  unfold validateScenario, validateScenarioBody, validates.
  destruct (truthy (sid G)) eqn:Hid; simpl.
  2:{ split; [discriminate|]. intros [Hs _]. apply truthy_true in Hs. congruence. }
  apply truthy_true in Hid.
  destruct (metadata G) as [m|].
  2:{ split; [discriminate|]. intros (_ & [? [=]] & _). }
  destruct (nodes G) as [ns|].
  2:{ split; [discriminate|]. intros (_ & _ & ? & [=] & _). }
  destruct (truthyValue (nodesGet ns "start")) eqn:Hst; simpl.
  2:{ split; [discriminate|]. intros (_ & _ & ? & [= <-] & Hs & _).
      assert (truthyValue (nodesGet ns "start") = true)
        by (apply truthyValue_nodesGet; by left).
      congruence. }
  apply truthyValue_nodesGet in Hst as [Hst|Hst]; [|discriminate].
  rewrite forallb_elem_of. split.
  - intros H. split; [done|]. split; [eauto|]. exists ns.
    split; [done|]. split; [done|].
    intros k n cs c t Hk. apply elem_of_map_to_list in Hk.
    specialize (H _ Hk). simpl in H. by apply nodeTargetsOk_true.
  - intros (_ & _ & ns' & [= <-] & _ & H) [k n] Hk. simpl.
    apply elem_of_map_to_list in Hk. apply nodeTargetsOk_true. eauto.
Qed.

Lemma validates_accepted (G : Scenario) :
  noInheritedTarget G → validates G ↔ accepted G.
Proof.
  intros Hno. unfold validates, accepted. split.
  - intros (H1 & H2 & ns & Hns & Hst & H). split; [done|]. split; [done|].
    exists ns. split; [done|]. split; [done|].
    intros k n cs c t Hk Hcs Hc Ht Hne.
    destruct (H k n cs c t Hk Hcs Hc Ht Hne) as [Hown|Hinh]; [done|].
    rewrite (Hno ns k n cs c t Hns Hk Hcs Hc Ht) in Hinh. discriminate.
  - intros (H1 & H2 & ns & Hns & Hst & H). split; [done|]. split; [done|].
    exists ns. split; [done|]. split; [done|].
    intros k n cs c t Hk Hcs Hc Ht Hne. left. eauto.
Qed.

Lemma validateScenario_accepted (G : Scenario) :
  noInheritedTarget G → validateScenario G = true ↔ accepted G.
Proof.
  intros Hno. rewrite validateScenario_validates. by apply validates_accepted.
Qed.

Lemma validateScenario_nodes (G : Scenario) :
  validateScenario G = true → ∃ ns, nodes G = Some ns ∧ is_Some (ns !! "start").
Proof.
  intros H. apply validateScenario_validates in H.
  destruct H as (_ & _ & ns & Hns & Hst & _). eauto.
Qed.

Lemma noInheritedTargetb_true (G : Scenario) :
  noInheritedTargetb G = true → noInheritedTarget G.
Proof.
  unfold noInheritedTargetb, noInheritedTarget.
  intros H ns k n cs c target Hns Hk Hcs Hc Ht. rewrite Hns in H.
  rewrite forallb_elem_of in H.
  apply elem_of_map_to_list in Hk. specialize (H _ Hk). simpl in H.
  rewrite Hcs in H. simpl in H.
  rewrite forallb_elem_of in H. specialize (H c Hc). rewrite Ht in H.
  by apply negb_true_iff in H.
Qed.

(** ** Loading *)

Lemma loadScenarioBody_Return fetch id e sc e' :
  loadScenarioBody fetch id e = (Return sc, e') →
  validateScenario sc = true ∧
  e' = setPosition (Some "start") [] (setScenario sc e).
Proof.
  unfold loadScenarioBody.
  destruct (scenarioIndex e) as [idx|]; [|discriminate].
  destruct (List.find _ idx) as [info|]; [|discriminate].
  destruct (fetch (file info)) as [|ok status body]; [discriminate|].
  destruct ok; simpl; [|discriminate].
  destruct body as [data|]; [|discriminate].
  destruct (validateScenario data) eqn:Hv; simpl; [|discriminate].
  by intros [= <- <-].
Qed.

Lemma loadScenarioBody_Throw fetch id e err e' :
  loadScenarioBody fetch id e = (Throw err, e') → e' = e.
Proof.
  unfold loadScenarioBody.
  destruct (scenarioIndex e) as [idx|]; [|by intros [= _ <-]].
  destruct (List.find _ idx) as [info|]; [|by intros [= _ <-]].
  destruct (fetch (file info)) as [|ok status body]; [by intros [= _ <-]|].
  destruct ok; simpl; [|by intros [= _ <-]].
  destruct body as [data|]; [|by intros [= _ <-]].
  destruct (validateScenario data); simpl; [discriminate | by intros [= _ <-]].
Qed.

(** A successful load adopts a scenario that passed validation and puts the
    navigator at ["start"] with an empty history. *)
Lemma loadScenario_Return fetch id e sc e' :
  loadScenario fetch id e = (Return sc, e') →
  validateScenario sc = true ∧
  currentScenario e' = Some sc ∧ currentNode e' = Some "start" ∧
  choiceHistory e' = [] ∧ storage e' = storage e.
Proof.
  unfold loadScenario.
  destruct (loadScenarioBody fetch id (setLoading true e)) as [r e1] eqn:Hb.
  intros [= -> <-]. apply loadScenarioBody_Return in Hb as [Hv ->]. done.
Qed.

(** A failed load leaves the scenario, the position and the history as
    they were. *)
Lemma loadScenario_Throw fetch id e err e' :
  loadScenario fetch id e = (Throw err, e') →
  currentScenario e' = currentScenario e ∧ currentNode e' = currentNode e ∧
  choiceHistory e' = choiceHistory e ∧ storage e' = storage e.
Proof.
  unfold loadScenario.
  destruct (loadScenarioBody fetch id (setLoading true e)) as [r e1] eqn:Hb.
  intros [= -> <-]. apply loadScenarioBody_Throw in Hb as ->. done.
Qed.

(** What a fetchable document leads to. *)
Lemma loadScenario_fetched fetch e idx id info status G :
  scenarioIndex e = Some idx →
  List.find (fun s => bool_decide (Some (info_id s) = id)) idx = Some info →
  fetch (file info) = Responded true status (Some G) →
  loadScenario fetch id e =
    if validateScenario G
    then (Return G,
          setLoading false
            (setPosition (Some "start") [] (setScenario G (setLoading true e))))
    else (Throw InvalidStructure, setLoading false (setLoading true e)).
Proof.
  intros Hidx Hfind Hfetch. unfold loadScenario, loadScenarioBody. simpl.
  rewrite Hidx, Hfind, Hfetch. simpl. by destruct (validateScenario G).
Qed.

(** C3, as stated, fails: a document that has its three top-level fields, a
    start node and no dangling [nextNode] is rejected when its [id] is the
    empty string, and a document is accepted although the [nextNode] of a
    choice, the empty string, names no node. *)
Lemma validateScenario_not_fields_and_targets :
  (fieldsPresentAndTargetsResolve emptyIdScenario ∧
   validateScenario emptyIdScenario = false) ∧
  (validateScenario emptyTargetScenario = true ∧
   ¬ fieldsPresentAndTargetsResolve emptyTargetScenario).
Proof.
  split; split.
  - unfold fieldsPresentAndTargetsResolve. simpl.
    split; [eauto|]. split; [eauto|]. eexists. split; [reflexivity|].
    split; [by rewrite lookup_singleton_eq|].
    intros k n cs c target Hk.
    apply lookup_singleton_Some in Hk as [_ <-]. discriminate.
  - reflexivity.
  - vm_compute. reflexivity.
  - intros (_ & _ & ns & [= <-] & _ & H).
    specialize (H "start" _ _ _ "" (lookup_singleton_eq _ _) eq_refl
                  (list_elem_of_here _ _) eq_refl).
    rewrite lookup_singleton_ne in H; [by destruct H | done].
Qed.

(** A [nextNode] that is the name of an inherited member passes
    validation although it names no node: [scenario.nodes["constructor"]]
    is the constructor every object inherits. *)
Example validateScenario_inherited_target :
  validateScenario inheritedTargetScenario = true ∧
  ¬ fieldsPresentAndTargetsResolve inheritedTargetScenario ∧
  ¬ noInheritedTarget inheritedTargetScenario.
Proof.
  split; [vm_compute; reflexivity|]. split.
  - intros (_ & _ & ns & [= <-] & _ & H).
    specialize (H "start" _ _ _ "constructor" (lookup_singleton_eq _ _) eq_refl
                  (list_elem_of_here _ _) eq_refl).
    rewrite lookup_singleton_ne in H; [by destruct H | done].
  - intros H.
    specialize (H _ "start" _ _ _ "constructor" eq_refl (lookup_singleton_eq _ _)
                  eq_refl (list_elem_of_here _ _) eq_refl).
    vm_compute in H. discriminate.
Qed.

(** C3 (amended): a document of the content format in which no [nextNode]
    is the name of a member every object inherits passes validation exactly
    when its [id] is a non-empty string, [metadata] and [nodes] are there,
    [nodes.start] exists and every non-empty [nextNode] names a node; a
    fetchable document that passes is loaded, and one that does not makes
    the load throw 'Invalid scenario structure' with the active scenario, the
    current node and the history left as they were. *)
Theorem loadScenario_validates fetch e idx id info status G :
  scenarioIndex e = Some idx →
  List.find (fun s => bool_decide (Some (info_id s) = id)) idx = Some info →
  fetch (file info) = Responded true status (Some G) →
  noInheritedTarget G →
  (validateScenario G = true ↔ accepted G) ∧
  (accepted G →
   ∃ e', loadScenario fetch id e = (Return G, e') ∧
         currentScenario e' = Some G ∧ currentNode e' = Some "start" ∧
         choiceHistory e' = []) ∧
  (¬ accepted G →
   ∃ e', loadScenario fetch id e = (Throw InvalidStructure, e') ∧
         currentScenario e' = currentScenario e ∧
         currentNode e' = currentNode e ∧
         choiceHistory e' = choiceHistory e).
Proof.
  intros Hidx Hfind Hfetch Hno.
  pose proof (loadScenario_fetched fetch e idx id info status G Hidx Hfind Hfetch) as Hl.
  split; [by apply validateScenario_accepted|]. split.
  - intros Ha. apply (validateScenario_accepted G Hno) in Ha. rewrite Ha in Hl.
    eexists. split; [exact Hl|]. done.
  - intros Hn. destruct (validateScenario G) eqn:Hv.
    + exfalso. by apply Hn, (validateScenario_accepted G Hno).
    + eexists. split; [exact Hl|]. done.
Qed.

Lemma sampleScenario_valid : validateScenario sampleScenario = true.
Proof. vm_compute. reflexivity. Qed.

Lemma startEngine_loaded :
  loadScenario sampleFetch (Some "scenario-001") idleEngine
  = (Return sampleScenario, startEngine).
Proof.
  unfold startEngine.
  rewrite (loadScenario_fetched sampleFetch idleEngine sampleIndex _
             {| info_id := "scenario-001"; file := "scenarios/scenario-001.json";
                unlocked := true |} 200 sampleScenario)
    by reflexivity.
  by rewrite sampleScenario_valid.
Qed.

Lemma loadScenario_validates_witness :
  scenarioIndex idleEngine = Some sampleIndex ∧
  (validateScenario sampleScenario = true ↔ accepted sampleScenario) ∧
  (accepted sampleScenario →
   ∃ e', loadScenario sampleFetch (Some "scenario-001") idleEngine
           = (Return sampleScenario, e') ∧
         currentScenario e' = Some sampleScenario ∧
         currentNode e' = Some "start" ∧ choiceHistory e' = []) ∧
  (¬ accepted sampleScenario →
   ∃ e', loadScenario sampleFetch (Some "scenario-001") idleEngine
           = (Throw InvalidStructure, e') ∧
         currentScenario e' = currentScenario idleEngine ∧
         currentNode e' = currentNode idleEngine ∧
         choiceHistory e' = choiceHistory idleEngine).
Proof.
  split; [reflexivity|].
  apply (loadScenario_validates sampleFetch idleEngine sampleIndex
           (Some "scenario-001")
           {| info_id := "scenario-001"; file := "scenarios/scenario-001.json";
              unlocked := true |} 200 sampleScenario); try reflexivity.
  apply noInheritedTargetb_true. vm_compute. reflexivity.
Defined.

(** ** Choice gating *)

Lemma madeBefore_map (history : list HistoryEntry) (id : string) :
  id ∈ map choiceId history ↔ madeBefore history id.
Proof.
  unfold madeBefore. rewrite list_elem_of_In, in_map_iff.
  split; intros (h & H1 & H2); exists h.
  - split; [by apply list_elem_of_In | done].
  - split; [done | by apply list_elem_of_In].
Qed.

Lemma choiceAvailable_requirementsMet history c :
  choiceAvailable history c = true ↔ requirementsMet history c.
Proof.
  unfold choiceAvailable, requirementsMet.
  destruct (requirements c) as [req|]; [|by split; [left|]].
  set (hasRequired := match previousChoices req with
                      | Some required => forallb _ required | None => true end).
  set (hasForbidden := match forbiddenChoices req with
                       | Some forbidden => existsb _ forbidden | None => false end).
  assert (Hreq : hasRequired = true ↔
            ∀ id, id ∈ default [] (previousChoices req) → madeBefore history id).
  { subst hasRequired. destruct (previousChoices req) as [required|]; simpl.
    - rewrite forallb_elem_of. split; intros H id Hid; specialize (H id Hid).
      + apply bool_decide_eq_true in H. by apply madeBefore_map.
      + by apply bool_decide_eq_true, madeBefore_map.
    - split; [|done]. intros _ id Hid. by apply elem_of_nil in Hid. }
  assert (Hforb : hasForbidden = true ↔
            ∃ id, id ∈ default [] (forbiddenChoices req) ∧ madeBefore history id).
  { subst hasForbidden. destruct (forbiddenChoices req) as [forbidden|]; simpl.
    - rewrite existsb_elem_of. split; intros (id & Hid & H); exists id; split; auto.
      + apply bool_decide_eq_true in H. by apply madeBefore_map.
      + by apply bool_decide_eq_true, madeBefore_map.
    - split; [discriminate|]. intros (id & Hid & _). by apply elem_of_nil in Hid. }
  destruct hasRequired; simpl.
  - destruct hasForbidden.
    + split; [discriminate|]. intros [[=]|(req' & [= <-] & _ & Hno)].
      destruct (proj1 Hforb eq_refl) as (id & Hid & Hmade).
      by destruct (Hno id Hid).
    + split; [|done]. intros _. right. exists req. split; [done|].
      split; [by apply Hreq|]. intros id Hid Hmade.
      assert (false = true) by (apply Hforb; eauto). discriminate.
  - split; [discriminate|]. intros [[=]|(req' & [= <-] & Hall & _)].
    apply Hreq in Hall. discriminate.
Qed.

Lemma filter_sublist_of {A : Type} (f : A → bool) (l : list A) :
  sublist (List.filter f l) l.
Proof.
  induction l as [|x l IH]; simpl; [constructor|].
  destruct (f x); by constructor.
Qed.

Lemma elem_of_List_filter {A : Type} (f : A → bool) (l : list A) (x : A) :
  x ∈ List.filter f l ↔ x ∈ l ∧ f x = true.
Proof. by rewrite !list_elem_of_In, filter_In. Qed.

(** C2: on a current node, [getAvailableChoices] returns the node's choices
    filtered by the gating rule, so exactly the choices that meet it, in the
    order of the node definition; without a current node or without a choice
    list it returns the empty list.  The method reads the engine and returns
    a value only: no engine state comes back from it. *)
Theorem getAvailableChoices_spec (e : GameEngine.t) :
  match getCurrentNode e with
  | Return (JsNode n) =>
      ∃ avail,
        getAvailableChoices e = Return avail ∧
        avail = List.filter (choiceAvailable (choiceHistory e)) (rawChoices n) ∧
        (∀ c, choiceAvailable (choiceHistory e) c = true
              ↔ requirementsMet (choiceHistory e) c) ∧
        (∀ c, c ∈ avail ↔ c ∈ rawChoices n ∧ requirementsMet (choiceHistory e) c) ∧
        sublist avail (rawChoices n)
  | Return _ => getAvailableChoices e = Return []
  | Throw err => getAvailableChoices e = Throw err
  end.
Proof.
  unfold getAvailableChoices, rawChoices.
  destruct (getCurrentNode e) as [[| |n|]|err]; try reflexivity.
  exists (List.filter (choiceAvailable (choiceHistory e)) (default [] (choices n))).
  split; [by destruct (choices n)|]. split; [done|].
  split; [intros c; apply choiceAvailable_requirementsMet|].
  split; [|apply filter_sublist_of].
  intros c. rewrite elem_of_List_filter.
  by rewrite choiceAvailable_requirementsMet.
Qed.

(** ** Advancing *)

Lemma getCurrentNode_nodeAt e sc ns :
  currentScenario e = Some sc → nodes sc = Some ns →
  getCurrentNode e = Return (nodeAt ns (currentNode e)).
Proof.
  intros Hsc Hns. unfold getCurrentNode, nodeAt. rewrite Hsc.
  destruct (currentNode e) as [k|]; [|done].
  destruct (truthy (Some k)); simpl; [|done].
  by rewrite Hns.
Qed.

Lemma isScenarioComplete_nodeAt e sc ns :
  currentScenario e = Some sc → nodes sc = Some ns →
  isScenarioComplete e = Return (isResolution (nodeAt ns (currentNode e))).
Proof.
  intros Hsc Hns. unfold isScenarioComplete.
  rewrite (getCurrentNode_nodeAt e sc ns Hsc Hns).
  by destruct (nodeAt ns (currentNode e)).
Qed.

Lemma nodeAt_JsNode ns k n :
  k ≠ "" → ns !! k = Some n → nodeAt ns (Some k) = JsNode n.
Proof.
  intros Hk Hn. unfold nodeAt. apply truthy_Some in Hk.
  by rewrite Hk, (nodesGet_own ns k n Hn).
Qed.

Lemma nodeAt_JsNode_inv ns id n :
  nodeAt ns id = JsNode n → ∃ k, id = Some k ∧ k ≠ "" ∧ ns !! k = Some n.
Proof.
  unfold nodeAt. destruct id as [k|]; [|discriminate].
  destruct (truthy (Some k)) eqn:Hk; [|discriminate].
  intros Hget. apply nodesGet_JsNode in Hget.
  exists k. by apply truthy_Some in Hk.
Qed.

(** [makeChoice] on a current node that lists the id: the first choice with
    that id is taken, whatever its requirements. *)
Lemma makeChoice_found e sc ns here n cs c id now :
  currentScenario e = Some sc → nodes sc = Some ns →
  currentNode e = Some here → here ≠ "" → ns !! here = Some n →
  choices n = Some cs →
  List.find (fun c => String.eqb (cid c) id) cs = Some c →
  makeChoice id now e
  = (Return (nodeAt ns (nextNode c)), advanced sc ns here id now c e).
Proof.
  intros Hsc Hns Hcur Hhere Hn Hcs Hfind. unfold makeChoice.
  rewrite Hsc, Hcur. apply truthy_Some in Hhere as Ht. rewrite Ht. simpl.
  rewrite (getCurrentNode_nodeAt e sc ns Hsc Hns), Hcur.
  apply truthy_Some in Ht. rewrite (nodeAt_JsNode ns here n Ht Hn), Hcs, Hfind.
  fold (entryFor here id now c).
  set (e2 := match strategy c with Some s => _ | None => _ end).
  assert (He2 : currentScenario e2 = Some sc ∧
                choiceHistory e2 = choiceHistory e ++ [entryFor here id now c] ∧
                scenarioIndex e2 = scenarioIndex e ∧ isLoading e2 = isLoading e ∧
                storage e2 =
                  match strategy c with
                  | Some s => if truthy (Some s)
                              then StorageManager.recordStrategyUsage s (storage e)
                              else storage e
                  | None => storage e
                  end).
  { subst e2. destruct (strategy c) as [s|]; simpl;
      [destruct (negb (String.eqb s ""))|]; simpl; auto. }
  destruct He2 as (H1 & H2 & H3 & H4 & H5).
  set (e4 := persist sc _).
  assert (Hsc4 : currentScenario e4 = Some sc) by (subst e4; exact H1).
  rewrite (getCurrentNode_nodeAt e4 sc ns Hsc4 Hns).
  rewrite (isScenarioComplete_nodeAt e4 sc ns Hsc4 Hns).
  assert (Hcur4 : currentNode e4 = nextNode c) by (by subst e4).
  rewrite Hcur4. unfold advanced, storageAfterChoice.
  destruct (isResolution (nodeAt ns (nextNode c))); f_equal;
    subst e4; unfold persist, setStorage, setPosition; simpl;
    rewrite ?H1, ?H2, ?H3, ?H4, ?H5, ?Hsc; reflexivity.
Qed.

(** [makeChoice] either throws and leaves the engine as it was, or takes
    the first choice of the current node that carries the id. *)
Lemma makeChoice_cases e id now :
  (∃ err, makeChoice id now e = (Throw err, e)) ∨
  (∃ sc ns here n cs c,
     currentScenario e = Some sc ∧ nodes sc = Some ns ∧
     currentNode e = Some here ∧ here ≠ "" ∧ ns !! here = Some n ∧
     choices n = Some cs ∧
     List.find (fun c => String.eqb (cid c) id) cs = Some c ∧
     makeChoice id now e
     = (Return (nodeAt ns (nextNode c)), advanced sc ns here id now c e)).
Proof.
  destruct (currentScenario e) as [sc|] eqn:Hsc.
  2:{ left. exists NoScenarioOrNode. unfold makeChoice. by rewrite Hsc. }
  destruct (currentNode e) as [here|] eqn:Hcur.
  2:{ left. exists NoScenarioOrNode. unfold makeChoice. by rewrite Hsc, Hcur. }
  destruct (truthy (Some here)) eqn:Ht.
  2:{ left. exists NoScenarioOrNode. unfold makeChoice. by rewrite Hsc, Hcur, Ht. }
  destruct (nodes sc) as [ns|] eqn:Hns.
  2:{ left. exists TypeError. unfold makeChoice, getCurrentNode.
      by rewrite Hsc, Hcur, Ht, Hns. }
  destruct (ns !! here) as [n|] eqn:Hn.
  2:{ left. exists NodeHasNoChoices. unfold makeChoice, getCurrentNode.
      rewrite Hsc, Hcur, Ht, Hns. simpl. unfold nodesGet. rewrite Hn.
      by destruct (inheritedName here). }
  destruct (choices n) as [cs|] eqn:Hcs.
  2:{ left. exists NodeHasNoChoices. unfold makeChoice, getCurrentNode.
      rewrite Hsc, Hcur, Ht, Hns. simpl. rewrite (nodesGet_own ns here n Hn).
      by rewrite Hcs. }
  destruct (List.find (fun c => String.eqb (cid c) id) cs) as [c|] eqn:Hfind.
  2:{ left. exists (ChoiceNotFound id). unfold makeChoice, getCurrentNode.
      rewrite Hsc, Hcur, Ht, Hns. simpl. rewrite (nodesGet_own ns here n Hn).
      by rewrite Hcs, Hfind. }
  right. exists sc, ns, here, n, cs, c. apply truthy_Some in Ht.
  repeat (split; [done|]). by apply makeChoice_found with n cs.
Qed.

Lemma makeChoice_Throw e id now err e' :
  makeChoice id now e = (Throw err, e') → e' = e.
Proof.
  destruct (makeChoice_cases e id now) as [[err' H]|(sc & ns & here & n & cs & c & H)].
  - rewrite H. by intros [= _ <-].
  - destruct H as (_ & _ & _ & _ & _ & _ & _ & ->). discriminate.
Qed.

Lemma makeChoice_Return e id now v e' :
  makeChoice id now e = (Return v, e') →
  ∃ sc ns here n cs c,
    currentScenario e = Some sc ∧ nodes sc = Some ns ∧
    currentNode e = Some here ∧ here ≠ "" ∧ ns !! here = Some n ∧
    choices n = Some cs ∧
    List.find (fun c => String.eqb (cid c) id) cs = Some c ∧
    v = nodeAt ns (nextNode c) ∧ e' = advanced sc ns here id now c e.
Proof.
  destruct (makeChoice_cases e id now) as [[err' H]|(sc & ns & here & n & cs & c & H)].
  - rewrite H. discriminate.
  - destruct H as (H1 & H2 & H3 & H4 & H5 & H6 & H7 & ->). intros [= <- <-].
    exists sc, ns, here, n, cs, c. done.
Qed.

Lemma find_cid_None (cs : list Choice) (id : string) :
  List.find (fun c => String.eqb (cid c) id) cs = None ↔
  ∀ c, c ∈ cs → cid c ≠ id.
Proof.
  split.
  - intros H c Hc Heq. apply list_elem_of_In in Hc.
    pose proof (find_none _ _ H c Hc) as Hf. simpl in Hf.
    apply String.eqb_neq in Hf. done.
  - intros H. destruct (List.find _ cs) as [c|] eqn:Hf; [|done].
    apply find_some in Hf as [Hc Heq]. apply String.eqb_eq in Heq.
    apply list_elem_of_In in Hc. by destruct (H c Hc).
Qed.

Lemma find_cid_Some (cs : list Choice) (id : string) (c : Choice) :
  List.find (fun c => String.eqb (cid c) id) cs = Some c → c ∈ cs ∧ cid c = id.
Proof.
  intros Hf. apply find_some in Hf as [Hc Heq]. apply String.eqb_eq in Heq.
  by apply list_elem_of_In in Hc.
Qed.

(** C1, as stated, fails: on the sample scenario at [start] with an empty
    history, choice [C] is in the node's choice list and is not among the
    available choices (it requires [A]), yet [makeChoice "C"] does not throw:
    it returns [nodeX], moves the current node there and records the choice. *)
Lemma makeChoice_accepts_gated_choice :
  currentNode startEngine = Some "start" ∧
  choiceHistory startEngine = [] ∧
  getCurrentNode startEngine
  = Return (JsNode {| type := Some "scene"; choices := Some [choiceA; choiceC] |}) ∧
  getAvailableChoices startEngine = Return [choiceA] ∧
  ∃ e',
    makeChoice "C" "2024-05-01T10:00:00.000Z" startEngine
    = (Return (JsNode {| type := Some "scene"; choices := Some [choiceB] |}), e') ∧
    currentNode e' = Some "nodeX" ∧
    choiceHistory e' = [entryFor "start" "C" "2024-05-01T10:00:00.000Z" choiceC].
Proof.
  split; [reflexivity|]. split; [reflexivity|].
  split; [vm_compute; reflexivity|]. split; [vm_compute; reflexivity|].
  pose proof (makeChoice_found startEngine sampleScenario sampleNodes "start"
                {| type := Some "scene"; choices := Some [choiceA; choiceC] |}
                [choiceA; choiceC] choiceC "C" "2024-05-01T10:00:00.000Z"
                eq_refl eq_refl eq_refl ltac:(done) eq_refl eq_refl eq_refl) as H.
  eexists. split; [exact H|]. split; reflexivity.
Qed.

Lemma find_cid_first (cs before after : list Choice) (c : Choice) (id : string) :
  cs = before ++ c :: after → (∀ x, x ∈ before → cid x ≠ id) → cid c = id →
  List.find (fun c => String.eqb (cid c) id) cs = Some c.
Proof.
  intros -> Hbefore Hc. induction before as [|x before IH]; simpl.
  - by rewrite (proj2 (String.eqb_eq _ _) Hc).
  - rewrite (proj2 (String.eqb_neq _ _) (Hbefore x (list_elem_of_here _ _))).
    apply IH. intros y Hy. apply Hbefore. by apply list_elem_of_further.
Qed.

Lemma find_cid_split (cs : list Choice) (c : Choice) (id : string) :
  List.find (fun c => String.eqb (cid c) id) cs = Some c →
  ∃ before after,
    cs = before ++ c :: after ∧ (∀ x, x ∈ before → cid x ≠ id) ∧ cid c = id.
Proof.
  induction cs as [|x cs IH]; simpl; [discriminate|].
  destruct (String.eqb_spec (cid x) id) as [Heq|Hne].
  - intros [= <-]. exists [], cs. split; [done|]. split; [|done].
    intros y Hy. by apply elem_of_nil in Hy.
  - intros Hf. destruct (IH Hf) as (before & after & -> & Hb & Hc).
    exists (x :: before), after. split; [done|]. split; [|done].
    intros y Hy. apply elem_of_cons in Hy as [->|Hy]; [done | by apply Hb].
Qed.

Lemma getCurrentNode_JsNode e n :
  getCurrentNode e = Return (JsNode n) →
  ∃ sc ns here,
    currentScenario e = Some sc ∧ nodes sc = Some ns ∧
    currentNode e = Some here ∧ here ≠ "" ∧ ns !! here = Some n.
Proof.
  unfold getCurrentNode.
  destruct (currentScenario e) as [sc|]; [|discriminate].
  destruct (currentNode e) as [here|]; [|discriminate].
  destruct (truthy (Some here)) eqn:Ht; simpl; [|discriminate].
  destruct (nodes sc) as [ns|] eqn:Hns; [|discriminate].
  intros [= Hget]. apply nodesGet_JsNode in Hget. apply truthy_Some in Ht.
  exists sc, ns, here. repeat split; assumption.
Qed.

(** C1 (amended): in every state, [makeChoice] with an id that no choice of
    the current node carries, also when the engine is at no node or the node
    has no choice list, throws and leaves the whole engine, so the current
    node and the history, as it was; at a node the error is [Choice not
    found], or [Current node has no choices] when the node has no list.
    With an id that some choice of the current node carries it succeeds with
    the first such choice of the list, whether or not the gating rule lets
    that choice through: it moves to that choice's [nextNode] and records
    it. *)
Theorem makeChoice_unknown_or_listed e id now :
  ((∀ c, c ∈ currentChoices e → cid c ≠ id) →
   ∃ err,
     makeChoice id now e = (Throw err, e) ∧
     ∀ n, getCurrentNode e = Return (JsNode n) →
          err = match choices n with
                | Some _ => ChoiceNotFound id
                | None => NodeHasNoChoices
                end) ∧
  (∀ before c after,
     currentChoices e = before ++ c :: after →
     (∀ x, x ∈ before → cid x ≠ id) → cid c = id →
     ∃ here v e',
       currentNode e = Some here ∧
       makeChoice id now e = (Return v, e') ∧
       currentNode e' = nextNode c ∧
       choiceHistory e' = choiceHistory e ++ [entryFor here id now c]).
Proof.
  split.
  - intros Habs.
    destruct (makeChoice_cases e id now)
      as [[err H]|(sc & ns & here & n & cs & c & Hsc & Hns & Hcur & Hne & Hn & Hcs & Hf & _)].
    + exists err. split; [exact H|]. intros n Hnode.
      destruct (getCurrentNode_JsNode e n Hnode)
        as (sc & ns & here & Hsc & Hns & Hcur & Hne & Hn).
      apply truthy_Some in Hne as Ht.
      assert (Hcs : currentChoices e = default [] (choices n))
        by (unfold currentChoices; by rewrite Hnode).
      rewrite Hcs in Habs.
      unfold makeChoice in H. rewrite Hsc, Hcur, Ht, Hnode in H. simpl in H.
      destruct (choices n) as [cs|]; [|congruence].
      simpl in Habs. rewrite (proj2 (find_cid_None cs id) Habs) in H. congruence.
    + exfalso.
      assert (Hnode : getCurrentNode e = Return (JsNode n)).
      { rewrite (getCurrentNode_nodeAt e sc ns Hsc Hns), Hcur.
        by rewrite (nodeAt_JsNode ns here n Hne Hn). }
      apply find_cid_Some in Hf as [Hc Hid].
      apply (Habs c); [|done]. unfold currentChoices. by rewrite Hnode, Hcs.
  - intros before c after Hsplit Hbefore Hc.
    unfold currentChoices in Hsplit.
    destruct (getCurrentNode e) as [[| |n|]|err] eqn:Hnode;
      try (by destruct before).
    destruct (getCurrentNode_JsNode e n Hnode)
      as (sc & ns & here & Hsc & Hns & Hcur & Hne & Hn).
    destruct (choices n) as [cs|] eqn:Hcs; [|by destruct before].
    simpl in Hsplit.
    pose proof (find_cid_first cs before after c id Hsplit Hbefore Hc) as Hf.
    exists here, (nodeAt ns (nextNode c)), (advanced sc ns here id now c e).
    split; [done|]. split; [by apply makeChoice_found with n cs|]. done.
Qed.

Lemma makeChoice_unknown_or_listed_witness :
  currentNode startEngine = Some "start" ∧
  ∃ err, makeChoice "Z" "2024-05-01T10:00:00.000Z" startEngine
         = (Throw err, startEngine) ∧
         ∀ n, getCurrentNode startEngine = Return (JsNode n) →
              err = match choices n with
                    | Some _ => ChoiceNotFound "Z"
                    | None => NodeHasNoChoices
                    end.
Proof.
  split; [reflexivity|].
  apply (proj1 (makeChoice_unknown_or_listed startEngine "Z"
                  "2024-05-01T10:00:00.000Z")).
  intros c Hc.
  assert (Hcs : currentChoices startEngine = [choiceA; choiceC])
    by (vm_compute; reflexivity).
  rewrite Hcs in Hc. clear Hcs.
  apply elem_of_cons in Hc as [->|Hc]; [discriminate|].
  apply elem_of_cons in Hc as [->|Hc]; [discriminate|].
  by apply elem_of_nil in Hc.
Defined.

(** ** Going back *)

Lemma goBack_empty e : choiceHistory e = [] → goBack e = (Return JsNull, e).
Proof. intros H. unfold goBack. by rewrite H. Qed.

Lemma goBack_snoc e sc rest x :
  currentScenario e = Some sc → choiceHistory e = rest ++ [x] →
  goBack e = (getCurrentNode (wentBack sc rest x e), wentBack sc rest x e).
Proof.
  intros Hsc Hh. unfold goBack. rewrite Hh, pop_snoc. simpl. rewrite Hsc.
  fold (wentBack sc rest x e). by destruct (getCurrentNode _).
Qed.

Lemma storedProgress_persist sc e :
  storedProgress (persist sc e)
  = Some {| StorageManager.currentScenario := sid sc;
            StorageManager.currentNode := currentNode e;
            StorageManager.choiceHistory := choiceHistory e |}.
Proof. reflexivity. Qed.

(** C5: with an empty history [goBack] returns [null], the signal that
    there is nothing to go back to, without throwing and with the engine
    left as it was; with a history [rest ++ [x]] on a loaded scenario it
    leaves the history [rest], makes [x.nodeId] the current node, saves that
    position, and returns what [getCurrentNode] gives there, which is the
    node itself when [x.nodeId] names one. *)
Theorem goBack_spec (e : GameEngine.t) :
  (choiceHistory e = [] → goBack e = (Return JsNull, e)) ∧
  (∀ sc rest x,
     currentScenario e = Some sc → choiceHistory e = rest ++ [x] →
     ∃ e',
       goBack e = (getCurrentNode e', e') ∧
       currentScenario e' = Some sc ∧
       choiceHistory e' = rest ∧
       currentNode e' = Some (nodeId x) ∧
       storedProgress e'
       = Some {| StorageManager.currentScenario := sid sc;
                 StorageManager.currentNode := Some (nodeId x);
                 StorageManager.choiceHistory := rest |} ∧
       ∀ ns n, nodes sc = Some ns → nodeId x ≠ "" → ns !! nodeId x = Some n →
               getCurrentNode e' = Return (JsNode n)).
Proof.
  split; [apply goBack_empty|].
  intros sc rest x Hsc Hh. exists (wentBack sc rest x e).
  split; [by apply goBack_snoc|]. split; [done|]. split; [done|].
  split; [done|]. split; [done|].
  intros ns n Hns Hx Hn.
  rewrite (getCurrentNode_nodeAt _ sc ns) by done.
  f_equal. change (currentNode (wentBack sc rest x e)) with (Some (nodeId x)).
  by apply nodeAt_JsNode.
Qed.

Lemma goBack_spec_witness :
  goBack startEngine = (Return JsNull, startEngine) ∧
  ∃ e', goBack afterA = (getCurrentNode e', e') ∧
        choiceHistory e' = [] ∧ currentNode e' = Some "start".
Proof.
  split.
  - apply (proj1 (goBack_spec startEngine)). reflexivity.
  - destruct (proj2 (goBack_spec afterA) sampleScenario []
                (entryFor "start" "A" "2024-05-01T10:00:00.000Z" choiceA)
                eq_refl eq_refl)
      as (e' & H1 & _ & H2 & H3 & _).
    exists e'. split; [exact H1|]. split; [exact H2 | exact H3].
Defined.

(** ** Round trip of advancing and going back *)

Lemma goBackTimes_last n e :
  goBackTimes (S n) e
  = match goBackTimes n e with
    | Some e1 => goBackTimes 1 e1
    | None => None
    end.
Proof.
  revert e. induction n as [|n IH]; intros e.
  - simpl. by destruct (goBack e) as [[[| |?|]|?] ?].
  - change (goBackTimes (S (S n)) e)
      with (match goBack e with
            | (Return (JsNode _), e') => goBackTimes (S n) e'
            | _ => None
            end).
    change (goBackTimes (S n) e)
      with (match goBack e with
            | (Return (JsNode _), e') => goBackTimes n e'
            | _ => None
            end).
    destruct (goBack e) as [[[| |?|]|?] e']; try reflexivity. apply IH.
Qed.

(** One [goBack] undoes one successful [makeChoice], also from an engine
    that only shares the position of the one advanced. *)
Lemma goBack_after_makeChoice e id now v e1 e1' :
  makeChoice id now e = (Return v, e1) → samePosition e1 e1' →
  ∃ e', goBackTimes 1 e1' = Some e' ∧ samePosition e e'.
Proof.
  intros Hm (Hs & Hc & Hh).
  apply makeChoice_Return in Hm
    as (sc & ns & here & n & cs & c & Hsc & Hns & Hcur & Hhere & Hn & _ & _ & _ & ->).
  simpl in Hs, Hc, Hh. rewrite Hsc in Hs.
  pose proof (goBack_snoc e1' sc (choiceHistory e) (entryFor here id now c)
                (eq_sym Hs) (eq_sym Hh)) as Hb.
  rewrite (getCurrentNode_nodeAt _ sc ns) in Hb by (try done; simpl; congruence).
  change (currentNode (wentBack sc (choiceHistory e) (entryFor here id now c) e1'))
    with (Some here) in Hb.
  rewrite (nodeAt_JsNode ns here n Hhere Hn) in Hb.
  exists (wentBack sc (choiceHistory e) (entryFor here id now c) e1').
  split; [simpl; by rewrite Hb|].
  split; [simpl; congruence|]. split; [simpl; congruence | done].
Qed.

Lemma goBackTimes_advancesTo e n e2 :
  advancesTo e n e2 →
  ∀ e2', samePosition e2 e2' →
  ∃ e', goBackTimes n e2' = Some e' ∧ samePosition e e'.
Proof.
  induction 1 as [e | e id now avail c v e1 n e2 _ _ _ Hm _ IH]; intros e2' Hpos.
  - exists e2'. done.
  - destruct (IH e2' Hpos) as (e1' & Hback & Hpos1).
    rewrite goBackTimes_last, Hback.
    by apply goBack_after_makeChoice with id now v e1.
Qed.

(** C4: from the state a successful load leaves (current node ["start"],
    empty history), after [n] successful calls of [makeChoice], each with an
    id that [getAvailableChoices] offers at that point, [n] calls of [goBack]
    all return a node and leave the current node ["start"] and the history
    empty, on the same scenario. *)
Theorem goBack_undoes_advances fetch id e sc e0 n e1 :
  loadScenario fetch id e = (Return sc, e0) →
  advancesTo e0 n e1 →
  ∃ e', goBackTimes n e1 = Some e' ∧
        currentScenario e' = Some sc ∧
        currentNode e' = Some "start" ∧
        choiceHistory e' = [].
Proof.
  intros Hload Hadv.
  apply loadScenario_Return in Hload as (_ & Hsc & Hcur & Hh & _).
  destruct (goBackTimes_advancesTo e0 n e1 Hadv e1) as (e' & Hback & H1 & H2 & H3);
    [done|].
  exists e'. split; [done|]. split; [congruence|]. split; congruence.
Qed.

Lemma advancesTo_sample : advancesTo startEngine 2 afterB.
Proof.
  apply (advances_step startEngine "A" "2024-05-01T10:00:00.000Z"
           [choiceA] choiceA
           (JsNode {| type := Some "scene"; choices := Some [choiceB] |})
           afterA 1 afterB);
    [vm_compute; reflexivity | apply list_elem_of_here | reflexivity
    | vm_compute; reflexivity |].
  apply (advances_step afterA "B" "2024-05-01T10:01:00.000Z"
           [choiceB] choiceB
           (JsNode {| type := Some "resolution"; choices := Some [] |})
           afterB 0 afterB);
    [vm_compute; reflexivity | apply list_elem_of_here | reflexivity
    | vm_compute; reflexivity |].
  apply advances_none.
Qed.

Lemma goBack_undoes_advances_witness :
  advancesTo startEngine 2 afterB ∧
  ∃ e', goBackTimes 2 afterB = Some e' ∧
        currentScenario e' = Some sampleScenario ∧
        currentNode e' = Some "start" ∧
        choiceHistory e' = [].
Proof.
  split; [exact advancesTo_sample|].
  exact (goBack_undoes_advances sampleFetch (Some "scenario-001") idleEngine
           sampleScenario startEngine 2 afterB startEngine_loaded
           advancesTo_sample).
Defined.

(** ** Restarting *)

Lemma restartScenario_idle e : currentScenario e = None → restartScenario e = e.
Proof. intros H. unfold restartScenario. by rewrite H. Qed.

(** C6: on a loaded scenario, whatever the current node and the history,
    [restartScenario] keeps the scenario, makes ["start"] the current node,
    empties the history and saves that position; it is a total function of
    the engine and throws nothing. *)
Theorem restartScenario_spec e sc :
  currentScenario e = Some sc →
  currentScenario (restartScenario e) = Some sc ∧
  currentNode (restartScenario e) = Some "start" ∧
  choiceHistory (restartScenario e) = [] ∧
  length (choiceHistory (restartScenario e)) = 0 ∧
  storedProgress (restartScenario e)
  = Some {| StorageManager.currentScenario := sid sc;
            StorageManager.currentNode := Some "start";
            StorageManager.choiceHistory := [] |}.
Proof.
  intros Hsc. unfold restartScenario. rewrite Hsc. done.
Qed.

Lemma restartScenario_spec_witness :
  currentNode afterB = Some "nodeY" ∧
  currentScenario (restartScenario afterB) = Some sampleScenario ∧
  currentNode (restartScenario afterB) = Some "start" ∧
  choiceHistory (restartScenario afterB) = [] ∧
  length (choiceHistory (restartScenario afterB)) = 0 ∧
  storedProgress (restartScenario afterB)
  = Some {| StorageManager.currentScenario := sid sampleScenario;
            StorageManager.currentNode := Some "start";
            StorageManager.choiceHistory := [] |}.
Proof.
  split; [reflexivity|].
  apply (restartScenario_spec afterB sampleScenario). reflexivity.
Defined.

(** ** Resuming *)

(** C8: [resumeFromProgress] fails exactly when [loadScenario] fails, with
    the same error and the same engine; when the load succeeds it succeeds,
    with the current node and the history of the snapshot put in place as
    they are, whether or not the snapshot's current node names a node, and
    returns what [getCurrentNode] gives there. *)
Theorem resumeFromProgress_spec fetch (p : StorageManager.UserProgress) e :
  match loadScenario fetch (StorageManager.currentScenario p) e with
  | (Throw err, e') => resumeFromProgress fetch p e = (Throw err, e')
  | (Return sc, e') =>
      ∃ ns,
        nodes sc = Some ns ∧
        resumeFromProgress fetch p e
        = (Return (nodeAt ns (StorageManager.currentNode p)),
           setPosition (StorageManager.currentNode p)
             (StorageManager.choiceHistory p) e') ∧
        currentScenario e' = Some sc
  end.
Proof.
  unfold resumeFromProgress.
  destruct (loadScenario fetch (StorageManager.currentScenario p) e)
    as [[sc|err] e'] eqn:Hload; [|done].
  apply loadScenario_Return in Hload as (Hv & Hsc & _).
  apply validateScenario_nodes in Hv as (ns & Hns & _).
  exists ns. split; [done|]. split; [|done].
  by rewrite (getCurrentNode_nodeAt _ sc ns).
Qed.

(** A snapshot whose current node is not in the scenario is resumed all the
    same; [getCurrentNode] is then [undefined]. *)
Example resumeFromProgress_stale :
  ∃ e', resumeFromProgress sampleFetch
          {| StorageManager.currentScenario := Some "scenario-001";
             StorageManager.currentNode := Some "removedNode";
             StorageManager.choiceHistory := [] |} idleEngine
        = (Return JsUndefined, e') ∧
        currentNode e' = Some "removedNode".
Proof. eexists. split; [vm_compute; reflexivity | reflexivity]. Qed.

(** ** Progress *)

Lemma percentage_formula (currentProgress totalNodes : nat) :
  totalNodes ≠ 0 →
  (percentage currentProgress totalNodes
   == Qmin 100 (100 * inject_Z (Z.of_nat currentProgress)
                / inject_Z (Z.of_nat totalNodes)))%Q.
Proof.
  intros Hn. unfold percentage.
  destruct totalNodes as [|m]; [done|].
  rewrite Q.min_comm. apply Q.min_compat; [reflexivity|].
  field. intros H. unfold Qeq in H. simpl in H. lia.
Qed.

(** C9: on a loaded scenario, [getProgress] returns a progress object whose
    [progressPercent] is [min(100, 100 * (history.length + 1) / totalNodes)],
    with [totalNodes] the number of nodes; numbers are rationals and the
    equality is that of rationals. *)
Theorem getProgress_percent e sc ns :
  currentScenario e = Some sc → validateScenario sc = true →
  nodes sc = Some ns →
  ∃ p, getProgress e = Return (Some p) ∧
       (progressPercent p
        == Qmin 100 (100 * inject_Z (Z.of_nat (length (choiceHistory e) + 1))
                     / inject_Z (Z.of_nat (size ns))))%Q.
Proof.
  intros Hsc Hv Hns.
  apply validateScenario_nodes in Hv as (ns' & Hns' & Hstart).
  assert (ns' = ns) as -> by congruence.
  unfold getProgress. rewrite Hsc, Hns.
  rewrite (isScenarioComplete_nodeAt e sc ns Hsc Hns).
  eexists. split; [reflexivity|]. simpl.
  apply percentage_formula.
  intros Hsize. apply map_size_empty_iff in Hsize. subst ns.
  rewrite lookup_empty in Hstart. by destruct Hstart.
Qed.

Lemma getProgress_percent_witness :
  currentScenario afterA = Some sampleScenario ∧
  length (choiceHistory afterA) = 1 ∧ size sampleNodes = 3 ∧
  ∃ p, getProgress afterA = Return (Some p) ∧
       (progressPercent p
        == Qmin 100 (100 * inject_Z (Z.of_nat (length (choiceHistory afterA) + 1))
                     / inject_Z (Z.of_nat (size sampleNodes))))%Q.
Proof.
  split; [reflexivity|]. split; [reflexivity|]. split; [vm_compute; reflexivity|].
  apply (getProgress_percent afterA sampleScenario sampleNodes);
    [reflexivity | exact sampleScenario_valid | reflexivity].
Defined.

(** ** The current node as a node of the scenario *)

(** C7, as stated, fails: the open-ended scenario passes validation, its
    load succeeds, and the successful [makeChoice "leave"] from ["start"]
    leaves a current node that is [undefined], not a node id. *)
Lemma currentNode_undefined_after_open_choice :
  validateScenario openEndedScenario = true ∧
  reachable openEndedScenario openEndedLeft ∧
  (∃ v, makeChoice "leave" "2024-05-01T10:00:00.000Z" openEndedStart
        = (Return v, openEndedLeft)) ∧
  currentNode openEndedLeft = None ∧
  ¬ validNodeId openEndedScenario (currentNode openEndedLeft).
Proof.
  split; [vm_compute; reflexivity|].
  assert (Hm : makeChoice "leave" "2024-05-01T10:00:00.000Z" openEndedStart
               = (Return JsNull, openEndedLeft)) by (vm_compute; reflexivity).
  split.
  - eapply reach_makeChoice; [|exact Hm].
    apply (reach_load _ openEndedFetch (Some "scenario-open") openEndedIdle).
    vm_compute. reflexivity.
  - split; [eauto|]. split; [reflexivity|].
    intros (k & ns & Hk & _). vm_compute in Hk. discriminate.
Qed.

(** A non-empty [nextNode] is not enough either: one that is the name of
    an inherited member passes validation, and the successful [makeChoice]
    leaves a current node that is no node id; [getCurrentNode] is then the
    inherited member. *)
Example currentNode_inherited_after_choice :
  validateScenario inheritedTargetScenario = true ∧
  ∃ e', makeChoice "go" "2024-05-01T10:00:00.000Z" inheritedTargetStart
        = (Return JsInherited, e') ∧
        currentNode e' = Some "constructor" ∧
        ¬ validNodeId inheritedTargetScenario (currentNode e').
Proof.
  split; [vm_compute; reflexivity|].
  eexists. split; [vm_compute; reflexivity|]. split; [reflexivity|].
  intros (k & ns & Hk & Hns & Hnode). simpl in Hk, Hns.
  injection Hk as <-. injection Hns as <-.
  rewrite lookup_singleton_ne in Hnode; [by destruct Hnode | done].
Qed.

Lemma wellPlaced_makeChoice sc e id now r e' :
  validateScenario sc = true → everyChoiceHasTarget sc →
  wellPlaced sc e → makeChoice id now e = (r, e') → wellPlaced sc e'.
Proof.
  intros Hv Htargets (Hsc & Hcur & Hhist) Hm.
  destruct r as [v|err].
  2:{ apply makeChoice_Throw in Hm as ->. done. }
  apply makeChoice_Return in Hm
    as (sc' & ns & here & n & cs & c & Hsc' & Hns & Hhere & _ & Hn & Hcs & Hf & _ & ->).
  assert (sc' = sc) as -> by congruence.
  apply find_cid_Some in Hf as [Hc _].
  destruct (Htargets ns here n cs c Hns Hn Hcs Hc) as (target & Ht & Hne & Hown).
  apply validateScenario_validates in Hv as (_ & _ & ns' & Hns' & _ & Hres).
  assert (ns' = ns) as -> by congruence.
  destruct (Hres here n cs c target Hn Hcs Hc Ht Hne) as [Hnode|Hinh];
    [|congruence].
  split; [done|]. split.
  - exists target, ns. simpl. eauto.
  - simpl. apply Forall_app. split; [done|].
    apply Forall_cons. split; [|constructor].
    exists here, ns. simpl. eauto.
Qed.

Lemma wellPlaced_goBack sc e r e' :
  wellPlaced sc e → goBack e = (r, e') → wellPlaced sc e'.
Proof.
  intros (Hsc & Hcur & Hhist) Hb.
  destruct (pop (choiceHistory e)) as [[rest x]|] eqn:Hpop.
  - apply pop_Some in Hpop.
    rewrite (goBack_snoc e sc rest x Hsc Hpop) in Hb. injection Hb as _ <-.
    rewrite Hpop in Hhist. apply Forall_app in Hhist as [Hrest Hx].
    apply Forall_cons in Hx as [Hx _].
    split; [done|]. split; done.
  - apply pop_None in Hpop. rewrite (goBack_empty e Hpop) in Hb.
    injection Hb as _ <-. done.
Qed.

Lemma wellPlaced_restart sc e :
  validateScenario sc = true → wellPlaced sc e → wellPlaced sc (restartScenario e).
Proof.
  intros Hv (Hsc & _ & _). unfold restartScenario. rewrite Hsc.
  apply validateScenario_nodes in Hv as (ns & Hns & Hstart).
  split; [done|]. split; [|constructor].
  exists "start", ns. done.
Qed.

Lemma reachable_validated sc e : reachable sc e → validateScenario sc = true.
Proof.
  induction 1 as [fetch id e e0 Hload| | |]; try done.
  by apply loadScenario_Return in Hload as [Hv _].
Qed.

Lemma reachable_wellPlaced sc e :
  everyChoiceHasTarget sc → reachable sc e → wellPlaced sc e.
Proof.
  intros Htargets Hreach.
  induction Hreach as [fetch id e e0 Hload
                      | e id now r e' Hreach IH Hm
                      | e r e' Hreach IH Hb
                      | e Hreach IH].
  - apply loadScenario_Return in Hload as (Hv & Hsc & Hcur & Hh & _).
    apply validateScenario_nodes in Hv as (ns & Hns & Hstart).
    split; [done|]. split; [|rewrite Hh; constructor].
    exists "start", ns. done.
  - apply (wellPlaced_makeChoice sc e id now r e'); try done.
    by apply reachable_validated with e.
  - by apply (wellPlaced_goBack sc e r e').
  - apply wellPlaced_restart; [|done]. by apply reachable_validated with e.
Qed.

(** C7 (amended): for a scenario that passed validation and in which every
    choice has a non-empty [nextNode], the current node is the id of a node
    of the scenario after the load and after every call of [makeChoice],
    [goBack] and [restartScenario] that follows, whether the call succeeds
    or not. *)
Theorem currentNode_valid sc e :
  validateScenario sc = true → everyChoiceHasTarget sc →
  reachable sc e → validNodeId sc (currentNode e).
Proof.
  intros _ Htargets Hreach.
  by destruct (reachable_wellPlaced sc e Htargets Hreach) as (_ & H & _).
Qed.

Lemma everyChoiceHasTargetb_true sc :
  everyChoiceHasTargetb sc = true → everyChoiceHasTarget sc.
Proof.
  unfold everyChoiceHasTargetb, everyChoiceHasTarget.
  intros H ns k n cs c Hns Hk Hcs Hc. rewrite Hns in H.
  rewrite forallb_elem_of in H.
  apply elem_of_map_to_list in Hk. specialize (H _ Hk). simpl in H.
  unfold rawChoices in H. rewrite Hcs in H. simpl in H.
  rewrite forallb_elem_of in H. specialize (H c Hc).
  apply andb_true_iff in H as [H1 H2].
  apply truthy_true in H1 as (target & Ht & Hne). rewrite Ht in H2. simpl in H2.
  apply negb_true_iff in H2. eauto.
Qed.

Lemma afterA_step :
  makeChoice "A" "2024-05-01T10:00:00.000Z" startEngine
  = (Return (JsNode {| type := Some "scene"; choices := Some [choiceB] |}), afterA).
Proof. vm_compute. reflexivity. Qed.

Lemma afterB_step :
  makeChoice "B" "2024-05-01T10:01:00.000Z" afterA
  = (Return (JsNode {| type := Some "resolution"; choices := Some [] |}), afterB).
Proof. vm_compute. reflexivity. Qed.

Lemma afterB_reachable : reachable sampleScenario afterB.
Proof.
  eapply reach_makeChoice; [|exact afterB_step].
  eapply reach_makeChoice; [|exact afterA_step].
  exact (reach_load _ sampleFetch (Some "scenario-001") idleEngine startEngine
           startEngine_loaded).
Qed.

Lemma currentNode_valid_witness :
  reachable sampleScenario afterB ∧
  validNodeId sampleScenario (currentNode afterB).
Proof.
  split; [exact afterB_reachable|].
  apply (currentNode_valid sampleScenario afterB).
  - exact sampleScenario_valid.
  - apply everyChoiceHasTargetb_true. vm_compute. reflexivity.
  - exact afterB_reachable.
Defined.

(** ** Recording a completed scenario *)

Section Storage.
Import StorageManager.

Lemma saveProgress_completed a b h sm :
  completedScenarios (loadData (saveProgress a b h sm))
  = completedScenarios (loadData sm) ∧
  scenariosCompleted (statistics (loadData (saveProgress a b h sm)))
  = scenariosCompleted (statistics (loadData sm)).
Proof. done. Qed.

Lemma recordStrategyUsage_completed s sm :
  completedScenarios (loadData (recordStrategyUsage s sm))
  = completedScenarios (loadData sm) ∧
  scenariosCompleted (statistics (loadData (recordStrategyUsage s sm)))
  = scenariosCompleted (statistics (loadData sm)).
Proof.
  unfold recordStrategyUsage.
  by destruct (strategiesUsed (statistics (loadData sm)) !! s).
Qed.

(** What [markScenarioComplete] stores, from the document [loadData]
    gives it: the id is appended and the counter incremented only when
    the id is not in [completedScenarios] yet, and [userProgress] is the
    cleared one. *)
Lemma markScenarioComplete_stored id sm :
  ∃ after,
    localStorage (markScenarioComplete id sm) = Some after ∧
    completedScenarios after
    = (if bool_decide (id ∈ completedScenarios (loadData sm))
       then completedScenarios (loadData sm)
       else completedScenarios (loadData sm) ++ [id]) ∧
    scenariosCompleted (statistics after)
    = (if bool_decide (id ∈ completedScenarios (loadData sm))
       then scenariosCompleted (statistics (loadData sm))
       else S (scenariosCompleted (statistics (loadData sm)))) ∧
    userProgress after = clearedProgress.
Proof.
  unfold markScenarioComplete, saveData. eexists. split; [reflexivity|].
  simpl. by destruct (bool_decide (id ∈ completedScenarios (loadData sm))).
Qed.

Lemma NoDup_push_fresh (id : option string) (l : list (option string)) :
  NoDup l →
  NoDup (if bool_decide (id ∈ l) then l else l ++ [id]).
Proof.
  intros Hl. destruct (bool_decide (id ∈ l)) eqn:Hin; [done|].
  apply bool_decide_eq_false in Hin.
  apply NoDup_app. split; [done|]. split; [|apply NoDup_singleton].
  intros x Hx Hx'. apply list_elem_of_singleton in Hx'. by subst.
Qed.

Lemma markScenarioComplete_known id sm :
  id ∈ completedScenarios (loadData sm) →
  completedScenarios (loadData (markScenarioComplete id sm))
  = completedScenarios (loadData sm) ∧
  scenariosCompleted (statistics (loadData (markScenarioComplete id sm)))
  = scenariosCompleted (statistics (loadData sm)).
Proof.
  intros Hin. pose proof (bool_decide_eq_true_2 _ Hin) as Hb.
  unfold markScenarioComplete. simpl. by rewrite Hb.
Qed.

Lemma markScenarioComplete_elem id sm :
  id ∈ completedScenarios (loadData (markScenarioComplete id sm)).
Proof.
  unfold markScenarioComplete. simpl.
  destruct (bool_decide (id ∈ completedScenarios (loadData sm))) eqn:Hin; simpl.
  - by apply bool_decide_eq_true in Hin.
  - apply elem_of_app. right. apply list_elem_of_here.
Qed.

(** Marking twice records once. *)
Lemma markScenarioComplete_twice id sm :
  completedScenarios (loadData (markScenarioComplete id (markScenarioComplete id sm)))
  = completedScenarios (loadData (markScenarioComplete id sm)) ∧
  scenariosCompleted
    (statistics (loadData (markScenarioComplete id (markScenarioComplete id sm))))
  = scenariosCompleted (statistics (loadData (markScenarioComplete id sm))).
Proof. apply markScenarioComplete_known, markScenarioComplete_elem. Qed.

End Storage.

Lemma storageAfterChoice_before_mark sc c history sm :
  completedIn (storageAfterChoice sc c history false sm) = completedIn sm ∧
  completedCount (storageAfterChoice sc c history false sm) = completedCount sm.
Proof.
  unfold storageAfterChoice, completedIn, completedCount.
  set (sm1 := match strategy c with Some s => _ | None => _ end).
  assert (H : StorageManager.completedScenarios (StorageManager.loadData sm1)
              = StorageManager.completedScenarios (StorageManager.loadData sm) ∧
              StorageManager.scenariosCompleted
                (StorageManager.statistics (StorageManager.loadData sm1))
              = StorageManager.scenariosCompleted
                  (StorageManager.statistics (StorageManager.loadData sm))).
  { subst sm1. destruct (strategy c) as [s|]; [|done].
    destruct (truthy (Some s)); [|done].
    apply recordStrategyUsage_completed. }
  destruct (saveProgress_completed (sid sc) (nextNode c) history sm1) as [H1 H2].
  destruct H as [H3 H4]. split; congruence.
Qed.

(** C10, as stated, fails for a storage that already lists an id twice:
    after the successful [makeChoice "B"] that reaches the resolution of the
    sample scenario over such a document, [completedScenarios] still has the
    duplicate. *)
Lemma makeChoice_keeps_stored_duplicates :
  (makeChoice "B" "2024-05-01T10:01:00.000Z" afterADuplicates).1
  = Return (JsNode {| type := Some "resolution"; choices := Some [] |}) ∧
  StorageManager.completedScenarios
    <$> StorageManager.localStorage
          (storage (makeChoice "B" "2024-05-01T10:01:00.000Z" afterADuplicates).2)
  = Some [Some "other"; Some "other"; Some "scenario-001"] ∧
  ¬ NoDup [Some "other"; Some "other"; Some "scenario-001"].
Proof.
  split; [vm_compute; reflexivity|]. split; [vm_compute; reflexivity|].
  intros H. apply NoDup_cons in H as [Hnot _]. apply Hnot, list_elem_of_here.
Qed.

(** C10 (amended): when a successful [makeChoice] returns a node of type
    ["resolution"], the document then in storage has the scenario id in
    [completedScenarios] once more than before only if it was not there, with
    [statistics.scenariosCompleted] incremented in that case only, so a list
    without duplicates stays without duplicates; its [userProgress] is the
    cleared one; and the engine itself is at the node returned, with the
    history extended by the entry of this choice. *)
Theorem makeChoice_records_completion e sc id now n e' :
  currentScenario e = Some sc →
  makeChoice id now e = (Return (JsNode n), e') →
  type n = Some "resolution" →
  ∃ after here c,
    StorageManager.localStorage (storage e') = Some after ∧
    StorageManager.completedScenarios after
    = (if bool_decide (sid sc ∈ completedIn (storage e))
       then completedIn (storage e)
       else completedIn (storage e) ++ [sid sc]) ∧
    StorageManager.scenariosCompleted (StorageManager.statistics after)
    = (if bool_decide (sid sc ∈ completedIn (storage e))
       then completedCount (storage e)
       else S (completedCount (storage e))) ∧
    (NoDup (completedIn (storage e)) →
     NoDup (StorageManager.completedScenarios after)) ∧
    StorageManager.userProgress after = StorageManager.clearedProgress ∧
    currentNode e = Some here ∧
    currentNode e' = nextNode c ∧
    getCurrentNode e' = Return (JsNode n) ∧
    choiceHistory e' = choiceHistory e ++ [entryFor here id now c].
Proof.
  intros Hsc Hm Htype.
  apply makeChoice_Return in Hm
    as (sc' & ns & here & n0 & cs & c & Hsc' & Hns & Hhere & _ & _ & _ & _ & Hv & ->).
  assert (sc' = sc) as -> by congruence.
  assert (Hres : isResolution (nodeAt ns (nextNode c)) = true).
  { rewrite <- Hv. simpl. by apply bool_decide_eq_true. }
  set (history := choiceHistory e ++ [entryFor here id now c]).
  destruct (storageAfterChoice_before_mark sc c history (storage e)) as [Hc1 Hc2].
  destruct (markScenarioComplete_stored (sid sc)
              (storageAfterChoice sc c history false (storage e)))
    as (after & Hst & Hlist & Hcount & Hprog).
  fold (completedIn (storageAfterChoice sc c history false (storage e))) in Hlist, Hcount.
  fold (completedCount (storageAfterChoice sc c history false (storage e))) in Hcount.
  rewrite Hc1 in Hlist, Hcount. rewrite Hc2 in Hcount.
  exists after, here, c.
  split.
  { simpl. fold history. rewrite Hres. exact Hst. }
  split; [exact Hlist|]. split; [exact Hcount|].
  split; [intros Hnd; rewrite Hlist; by apply NoDup_push_fresh|].
  split; [exact Hprog|]. split; [exact Hhere|]. split; [reflexivity|].
  split; [|reflexivity].
  rewrite (getCurrentNode_nodeAt _ sc ns); [|exact Hsc|exact Hns].
  simpl. by rewrite <- Hv.
Qed.

Lemma makeChoice_records_completion_witness :
  completedIn (storage afterA) = [] ∧
  ∃ after here c,
    StorageManager.localStorage (storage afterB) = Some after ∧
    StorageManager.completedScenarios after
    = (if bool_decide (sid sampleScenario ∈ completedIn (storage afterA))
       then completedIn (storage afterA)
       else completedIn (storage afterA) ++ [sid sampleScenario]) ∧
    StorageManager.scenariosCompleted (StorageManager.statistics after)
    = (if bool_decide (sid sampleScenario ∈ completedIn (storage afterA))
       then completedCount (storage afterA)
       else S (completedCount (storage afterA))) ∧
    (NoDup (completedIn (storage afterA)) →
     NoDup (StorageManager.completedScenarios after)) ∧
    StorageManager.userProgress after = StorageManager.clearedProgress ∧
    currentNode afterA = Some here ∧
    currentNode afterB = nextNode c ∧
    getCurrentNode afterB
    = Return (JsNode {| type := Some "resolution"; choices := Some [] |}) ∧
    choiceHistory afterB
    = choiceHistory afterA ++ [entryFor here "B" "2024-05-01T10:01:00.000Z" c].
Proof.
  split; [vm_compute; reflexivity|].
  apply (makeChoice_records_completion afterA sampleScenario "B"
           "2024-05-01T10:01:00.000Z"
           {| type := Some "resolution"; choices := Some [] |} afterB).
  - reflexivity.
  - exact afterB_step.
  - reflexivity.
Defined.

(** ** The storage manager: reading back what was saved *)

Lemma loadData_saveData sm data :
  StorageManager.loadData (StorageManager.saveData sm data) = data.
Proof.
  unfold StorageManager.loadData, StorageManager.saveData. simpl.
  unfold StorageManager.mergeWithDefaults. simpl.
  destruct data as [progress completed preferences [total count used]].
  simpl. f_equal. f_equal. apply (idemp_L (∪)).
Qed.

Lemma loadData_saveProgress a b h sm :
  StorageManager.loadData (StorageManager.saveProgress a b h sm)
  = {| StorageManager.userProgress :=
         {| StorageManager.currentScenario := a;
            StorageManager.currentNode := b;
            StorageManager.choiceHistory := h |};
       StorageManager.completedScenarios :=
         StorageManager.completedScenarios (StorageManager.loadData sm);
       StorageManager.userPreferences :=
         StorageManager.userPreferences (StorageManager.loadData sm);
       StorageManager.statistics :=
         {| StorageManager.totalChoicesMade := length h;
            StorageManager.scenariosCompleted :=
              StorageManager.scenariosCompleted
                (StorageManager.statistics (StorageManager.loadData sm));
            StorageManager.strategiesUsed :=
              StorageManager.strategiesUsed
                (StorageManager.statistics (StorageManager.loadData sm)) |} |}.
Proof.
  unfold StorageManager.saveProgress. apply loadData_saveData.
Qed.

Lemma loadData_markScenarioComplete id sm :
  StorageManager.loadData (StorageManager.markScenarioComplete id sm)
  = {| StorageManager.userProgress := StorageManager.clearedProgress;
       StorageManager.completedScenarios :=
         if bool_decide (id ∈ completedIn sm)
         then completedIn sm else completedIn sm ++ [id];
       StorageManager.userPreferences :=
         StorageManager.userPreferences (StorageManager.loadData sm);
       StorageManager.statistics :=
         {| StorageManager.totalChoicesMade :=
              StorageManager.totalChoicesMade
                (StorageManager.statistics (StorageManager.loadData sm));
            StorageManager.scenariosCompleted :=
              if bool_decide (id ∈ completedIn sm)
              then completedCount sm else S (completedCount sm);
            StorageManager.strategiesUsed :=
              StorageManager.strategiesUsed
                (StorageManager.statistics (StorageManager.loadData sm)) |} |}.
Proof.
  unfold StorageManager.markScenarioComplete.
  rewrite loadData_saveData.
  unfold completedIn, completedCount.
  by destruct (bool_decide
                 (id ∈ StorageManager.completedScenarios (StorageManager.loadData sm))).
Qed.

Lemma loadData_recordStrategyUsage s n sm :
  StorageManager.strategiesUsed
    (StorageManager.statistics (StorageManager.loadData sm)) !! s = Some n →
  StorageManager.loadData (StorageManager.recordStrategyUsage s sm)
  = {| StorageManager.userProgress :=
         StorageManager.userProgress (StorageManager.loadData sm);
       StorageManager.completedScenarios :=
         StorageManager.completedScenarios (StorageManager.loadData sm);
       StorageManager.userPreferences :=
         StorageManager.userPreferences (StorageManager.loadData sm);
       StorageManager.statistics :=
         {| StorageManager.totalChoicesMade :=
              StorageManager.totalChoicesMade
                (StorageManager.statistics (StorageManager.loadData sm));
            StorageManager.scenariosCompleted :=
              StorageManager.scenariosCompleted
                (StorageManager.statistics (StorageManager.loadData sm));
            StorageManager.strategiesUsed :=
              <[s := S n]>
                (StorageManager.strategiesUsed
                   (StorageManager.statistics (StorageManager.loadData sm))) |} |}.
Proof.
  intros Hs. unfold StorageManager.recordStrategyUsage. rewrite Hs.
  apply loadData_saveData.
Qed.

(** X1: what [saveProgress] writes is what [loadProgress] reads back: the
    saved scenario id, node id and history when both ids are truthy, and
    nothing ([null]) when one of them is missing or empty. *)
Theorem loadProgress_saveProgress a b h sm :
  StorageManager.loadProgress (StorageManager.saveProgress a b h sm)
  = if truthy a && truthy b
    then Some {| StorageManager.currentScenario := a;
                 StorageManager.currentNode := b;
                 StorageManager.choiceHistory := h |}
    else None.
Proof.
  unfold StorageManager.loadProgress. by rewrite loadData_saveProgress.
Qed.

(** X2: [clearCurrentProgress] leaves nothing to resume and keeps the rest
    of the document: completed scenarios, preferences and statistics read
    as before. *)
Theorem clearCurrentProgress_spec sm :
  StorageManager.loadProgress (StorageManager.clearCurrentProgress sm) = None ∧
  completedIn (StorageManager.clearCurrentProgress sm) = completedIn sm ∧
  getUserPreferences (StorageManager.clearCurrentProgress sm) = getUserPreferences sm ∧
  getStatistics (StorageManager.clearCurrentProgress sm) = getStatistics sm.
Proof.
  assert (H : StorageManager.loadData (StorageManager.clearCurrentProgress sm)
              = {| StorageManager.userProgress := StorageManager.clearedProgress;
                   StorageManager.completedScenarios := completedIn sm;
                   StorageManager.userPreferences := getUserPreferences sm;
                   StorageManager.statistics := getStatistics sm |}).
  { unfold StorageManager.clearCurrentProgress. apply loadData_saveData. }
  unfold StorageManager.loadProgress, completedIn, getUserPreferences, getStatistics.
  by rewrite H.
Qed.

(** X3: [recordStrategyUsage] counts a strategy that has a counter, adding
    one to that counter and touching no other counter, and ignores a
    strategy that has none: the manager is then left as it was. *)
Theorem recordStrategyUsage_spec s sm :
  match StorageManager.strategiesUsed (getStatistics sm) !! s with
  | Some n =>
      StorageManager.strategiesUsed
        (getStatistics (StorageManager.recordStrategyUsage s sm)) !! s = Some (S n) ∧
      (∀ k, k ≠ s →
         StorageManager.strategiesUsed
           (getStatistics (StorageManager.recordStrategyUsage s sm)) !! k
         = StorageManager.strategiesUsed (getStatistics sm) !! k) ∧
      completedIn (StorageManager.recordStrategyUsage s sm) = completedIn sm ∧
      StorageManager.userProgress
        (StorageManager.loadData (StorageManager.recordStrategyUsage s sm))
      = StorageManager.userProgress (StorageManager.loadData sm)
  | None => StorageManager.recordStrategyUsage s sm = sm
  end.
Proof.
  unfold getStatistics.
  destruct (StorageManager.strategiesUsed
              (StorageManager.statistics (StorageManager.loadData sm)) !! s)
    as [n|] eqn:Hs.
  - unfold completedIn. rewrite (loadData_recordStrategyUsage s n sm Hs). simpl.
    split; [apply lookup_insert_eq|]. split; [|done].
    intros k Hk. by apply lookup_insert_ne.
  - unfold StorageManager.recordStrategyUsage. by rewrite Hs.
Qed.

(** X4: after [markScenarioComplete(id)] the id is reported completed, the
    answer for every other id is as before, and marking the same id again
    changes nothing in the document. *)
Theorem isScenarioCompleted_markScenarioComplete id sm :
  StorageManager.isScenarioCompleted id (StorageManager.markScenarioComplete id sm)
  = true ∧
  (∀ other, other ≠ id →
     StorageManager.isScenarioCompleted other
       (StorageManager.markScenarioComplete id sm)
     = StorageManager.isScenarioCompleted other sm) ∧
  StorageManager.loadData
    (StorageManager.markScenarioComplete id
       (StorageManager.markScenarioComplete id sm))
  = StorageManager.loadData (StorageManager.markScenarioComplete id sm).
Proof.
  assert (Hin : id ∈ completedIn (StorageManager.markScenarioComplete id sm)).
  { unfold completedIn at 1. rewrite loadData_markScenarioComplete. simpl.
    destruct (bool_decide (id ∈ completedIn sm)) eqn:Hb.
    - by apply bool_decide_eq_true in Hb.
    - apply elem_of_app. right. apply list_elem_of_here. }
  split; [|split].
  - unfold StorageManager.isScenarioCompleted. by apply bool_decide_eq_true_2.
  - intros other Hne. unfold StorageManager.isScenarioCompleted.
    rewrite loadData_markScenarioComplete. simpl. fold (completedIn sm).
    apply bool_decide_ext.
    destruct (bool_decide (id ∈ completedIn sm)); [done|].
    rewrite elem_of_app, list_elem_of_singleton.
    split; [intros [H|H]; [done | congruence] | by left].
  - rewrite (loadData_markScenarioComplete id
               (StorageManager.markScenarioComplete id sm)).
    rewrite (bool_decide_eq_true_2 _ Hin).
    unfold completedIn, completedCount.
    rewrite loadData_markScenarioComplete. done.
Qed.

(** X5: [clearAllData] empties [localStorage] only.  A completion recorded
    while nothing was stored went into the arrays of [defaultState], which
    [loadData] hands out again, so it is still reported after the reset;
    one recorded on a stored document is forgotten, and the answer is that
    of [defaultState]. *)
Theorem clearAllData_after_markScenarioComplete id sm :
  StorageManager.isScenarioCompleted id
    (StorageManager.clearAllData (StorageManager.markScenarioComplete id sm))
  = match StorageManager.localStorage sm with
    | None => true
    | Some _ =>
        bool_decide
          (id ∈ StorageManager.completedScenarios (StorageManager.defaultState sm))
    end.
Proof.
  unfold StorageManager.isScenarioCompleted, StorageManager.clearAllData,
    StorageManager.loadData at 1. simpl.
  unfold StorageManager.defaultsAfter.
  destruct (StorageManager.localStorage sm) as [stored|] eqn:Hst; [done|].
  simpl. apply bool_decide_eq_true_2.
  destruct (bool_decide
              (id ∈ StorageManager.completedScenarios (StorageManager.loadData sm)))
    eqn:Hb; simpl.
  - by apply bool_decide_eq_true in Hb.
  - apply elem_of_app. right. apply list_elem_of_here.
Qed.

(** ** The document in storage after navigating *)

Lemma loadData_storageAfterChoice sc c history complete sm :
  StorageManager.loadData (storageAfterChoice sc c history complete sm)
  = documentAfterChoice sc c history complete (StorageManager.loadData sm).
Proof.
  unfold storageAfterChoice.
  set (sm1 := match strategy c with Some s => _ | None => _ end).
  assert (H1 : StorageManager.loadData sm1
               = {| StorageManager.userProgress :=
                      StorageManager.userProgress (StorageManager.loadData sm);
                    StorageManager.completedScenarios :=
                      StorageManager.completedScenarios (StorageManager.loadData sm);
                    StorageManager.userPreferences :=
                      StorageManager.userPreferences (StorageManager.loadData sm);
                    StorageManager.statistics :=
                      {| StorageManager.totalChoicesMade :=
                           StorageManager.totalChoicesMade
                             (StorageManager.statistics (StorageManager.loadData sm));
                         StorageManager.scenariosCompleted :=
                           StorageManager.scenariosCompleted
                             (StorageManager.statistics (StorageManager.loadData sm));
                         StorageManager.strategiesUsed :=
                           countedStrategy (strategy c)
                             (StorageManager.strategiesUsed
                                (StorageManager.statistics
                                   (StorageManager.loadData sm))) |} |}).
  { subst sm1. unfold countedStrategy.
    destruct (strategy c) as [s|];
      [destruct (truthy (Some s));
       [destruct (StorageManager.strategiesUsed
                    (StorageManager.statistics (StorageManager.loadData sm)) !! s)
          as [n|] eqn:Hs|]|].
    - by apply loadData_recordStrategyUsage.
    - unfold StorageManager.recordStrategyUsage. rewrite Hs.
      by destruct (StorageManager.loadData sm) as [? ? ? []].
    - by destruct (StorageManager.loadData sm) as [? ? ? []].
    - by destruct (StorageManager.loadData sm) as [? ? ? []]. }
  unfold documentAfterChoice. destruct complete; simpl.
  - rewrite loadData_markScenarioComplete. unfold completedIn, completedCount.
    rewrite loadData_saveProgress, H1. simpl.
    by destruct (bool_decide
                   (sid sc ∈ StorageManager.completedScenarios
                               (StorageManager.loadData sm))).
  - rewrite loadData_saveProgress, H1. done.
Qed.

Lemma loadData_persist sc e :
  StorageManager.loadData (storage (persist sc e))
  = {| StorageManager.userProgress :=
         {| StorageManager.currentScenario := sid sc;
            StorageManager.currentNode := currentNode e;
            StorageManager.choiceHistory := choiceHistory e |};
       StorageManager.completedScenarios := completedIn (storage e);
       StorageManager.userPreferences := getUserPreferences (storage e);
       StorageManager.statistics :=
         {| StorageManager.totalChoicesMade := length (choiceHistory e);
            StorageManager.scenariosCompleted := completedCount (storage e);
            StorageManager.strategiesUsed :=
              StorageManager.strategiesUsed (getStatistics (storage e)) |} |}.
Proof. unfold persist. simpl. apply loadData_saveProgress. Qed.

(** What one navigation call does to the engine: nothing, a [makeChoice]
    that went through, or a position saved by [goBack] or
    [restartScenario]. *)
Lemma navigates_cases e e' :
  navigates e e' →
  e' = e ∨
  (∃ sc ns here id now c, e' = advanced sc ns here id now c e) ∨
  (∃ sc node history, e' = persist sc (setPosition node history e)) ∨
  (∃ node history, currentScenario e = None ∧ e' = setPosition node history e).
Proof.
  intros [e0 id now r e1 Hm | e0 r e1 Hb | e0].
  - destruct r as [v|err].
    + apply makeChoice_Return in Hm
        as (sc & ns & here & n & cs & c & _ & _ & _ & _ & _ & _ & _ & _ & ->).
      right. left. by exists sc, ns, here, id, now, c.
    + apply makeChoice_Throw in Hm. by left.
  - unfold goBack in Hb.
    destruct (pop (choiceHistory e0)) as [[rest x]|]; [|left; congruence].
    simpl in Hb. destruct (currentScenario e0) as [sc|] eqn:Hsc.
    + right. right. left. exists sc, (Some (nodeId x)), rest.
      destruct (getCurrentNode _); congruence.
    + right. right. right. exists (Some (nodeId x)), rest. split; congruence.
  - unfold restartScenario. destruct (currentScenario e0) as [sc|]; [|by left].
    right. right. left. by exists sc, (Some "start"), [].
Qed.

Lemma elem_of_getAvailableScenarios e s :
  s ∈ getAvailableScenarios e ↔
  ∃ idx, scenarioIndex e = Some idx ∧ s ∈ idx ∧
         (unlocked s = true ∨ Some (info_id s) ∈ completedIn (storage e)).
Proof.
  unfold getAvailableScenarios, StorageManager.isScenarioCompleted.
  fold (completedIn (storage e)).
  destruct (scenarioIndex e) as [idx|].
  - rewrite elem_of_List_filter, orb_true_iff, bool_decide_eq_true.
    split; [intros [H1 H2]; eauto | intros (idx' & [= <-] & H1 & H2); eauto].
  - split; [intros H; by apply elem_of_nil in H | intros (idx & [=] & _)].
Qed.

(** X6: every navigation call ([makeChoice], [goBack], [restartScenario]),
    however it ends, keeps what the user has earned and set: no completed
    scenario is forgotten, [scenariosCompleted] does not decrease, the
    preferences are untouched, and every scenario that was available stays
    available. *)
Theorem navigates_keeps_completions e e' :
  navigates e e' →
  (∀ id, id ∈ completedIn (storage e) → id ∈ completedIn (storage e')) ∧
  (completedCount (storage e) ≤ completedCount (storage e'))%nat ∧
  getUserPreferences (storage e') = getUserPreferences (storage e) ∧
  (∀ s, s ∈ getAvailableScenarios e → s ∈ getAvailableScenarios e').
Proof.
  intros Hnav.
  assert (H : (∀ id, id ∈ completedIn (storage e) → id ∈ completedIn (storage e')) ∧
              (completedCount (storage e) ≤ completedCount (storage e'))%nat ∧
              getUserPreferences (storage e') = getUserPreferences (storage e) ∧
              scenarioIndex e' = scenarioIndex e).
  { destruct (navigates_cases e e' Hnav)
      as [-> | [(sc & ns & here & id & now & c & ->)
             | [(sc & node & history & ->) | (node & history & _ & ->)]]].
    - done.
    - unfold completedIn, completedCount, getUserPreferences. simpl.
      rewrite loadData_storageAfterChoice. unfold documentAfterChoice. simpl.
      destruct (isResolution _ && negb _); simpl.
      + split; [intros id0 Hid; apply elem_of_app; by left|]. split; [lia | done].
      + done.
    - unfold completedIn, completedCount, getUserPreferences.
      rewrite loadData_persist. done.
    - done. }
  destruct H as (H1 & H2 & H3 & H4). split; [done|]. split; [done|]. split; [done|].
  intros s. rewrite !elem_of_getAvailableScenarios, H4.
  intros (idx & Hidx & Hs & [Hu|Hc]); exists idx; eauto.
Qed.

Lemma navigates_keeps_completions_witness :
  navigates afterA afterB ∧
  (completedCount (storage afterA) ≤ completedCount (storage afterB))%nat.
Proof.
  assert (H : navigates afterA afterB) by exact (nav_makeChoice _ _ _ _ _ afterB_step).
  split; [exact H|].
  exact (proj1 (proj2 (navigates_keeps_completions afterA afterB H))).
Defined.

(** X7: a navigation call on a loaded scenario that changes the engine
    leaves [statistics.totalChoicesMade] equal to the length of the history
    it leaves: the statistic follows the current path, down again after
    [goBack] and to zero after [restartScenario]. *)
Theorem totalChoicesMade_is_history_length e e' sc :
  currentScenario e = Some sc → navigates e e' →
  e' = e ∨
  StorageManager.totalChoicesMade (getStatistics (storage e'))
  = length (choiceHistory e').
Proof.
  intros Hsc Hnav.
  destruct (navigates_cases e e' Hnav)
    as [-> | [(sc' & ns & here & id & now & c & ->)
           | [(sc' & node & history & ->) | (node & history & Hnone & ->)]]].
  - by left.
  - right. unfold getStatistics. simpl. by rewrite loadData_storageAfterChoice.
  - right. unfold getStatistics. by rewrite loadData_persist.
  - congruence.
Qed.

Lemma totalChoicesMade_is_history_length_witness :
  currentScenario afterB = Some sampleScenario ∧
  (restartScenario afterB = afterB ∨
   StorageManager.totalChoicesMade (getStatistics (storage (restartScenario afterB)))
   = length (choiceHistory (restartScenario afterB))).
Proof.
  split; [reflexivity|].
  apply (totalChoicesMade_is_history_length afterB (restartScenario afterB)
           sampleScenario); [reflexivity | apply nav_restart].
Defined.

(** X8: a successful [makeChoice] counts the strategy of the choice it
    records: when that strategy is a non-empty string with a counter in
    [statistics.strategiesUsed], the counter goes up by one and no other
    counter moves; a choice without strategy, or with one that has no
    counter, leaves the counters as they were. *)
Theorem makeChoice_counts_strategy e id now v e' :
  makeChoice id now e = (Return v, e') →
  ∃ entry,
    choiceHistory e' = choiceHistory e ++ [entry] ∧
    choiceId entry = id ∧
    StorageManager.strategiesUsed (getStatistics (storage e'))
    = countedStrategy (entryStrategy entry)
        (StorageManager.strategiesUsed (getStatistics (storage e))) ∧
    ∀ k,
      StorageManager.strategiesUsed (getStatistics (storage e')) !! k
      = match StorageManager.strategiesUsed (getStatistics (storage e)) !! k with
        | Some n =>
            if bool_decide (entryStrategy entry = Some k ∧ k ≠ "")
            then Some (S n) else Some n
        | None => None
        end.
Proof.
  intros Hm. apply makeChoice_Return in Hm
    as (sc & ns & here & n & cs & c & _ & _ & _ & _ & _ & _ & _ & _ & ->).
  exists (entryFor here id now c). split; [done|]. split; [done|].
  unfold getStatistics. simpl. rewrite loadData_storageAfterChoice. simpl.
  split; [done|]. intros k. unfold countedStrategy.
  set (used := StorageManager.strategiesUsed
                 (StorageManager.statistics (StorageManager.loadData (storage e)))).
  destruct (strategy c) as [s|].
  2:{ destruct (used !! k); [|done]. rewrite bool_decide_eq_false_2; [done|].
      by intros [[=] _]. }
  destruct (truthy (Some s)) eqn:Ht.
  2:{ destruct (used !! k); [|done]. rewrite bool_decide_eq_false_2; [done|].
      intros [[= ->] Hne]. apply truthy_Some in Hne. congruence. }
  apply truthy_Some in Ht.
  destruct (used !! s) as [m|] eqn:Hs.
  - destruct (decide (s = k)) as [->|Hne].
    + rewrite lookup_insert_eq, Hs. by rewrite bool_decide_eq_true_2.
    + rewrite lookup_insert_ne by done. destruct (used !! k); [|done].
      rewrite bool_decide_eq_false_2; [done|]. intros [[=] _]. done.
  - destruct (used !! k) eqn:Hk; [|done].
    rewrite bool_decide_eq_false_2; [done|]. intros [[= ->] _]. congruence.
Qed.

Lemma makeChoice_counts_strategy_witness :
  ∃ entry,
    choiceHistory afterA = choiceHistory startEngine ++ [entry] ∧
    choiceId entry = "A" ∧
    StorageManager.strategiesUsed (getStatistics (storage afterA))
    = countedStrategy (entryStrategy entry)
        (StorageManager.strategiesUsed (getStatistics (storage startEngine))) ∧
    ∀ k,
      StorageManager.strategiesUsed (getStatistics (storage afterA)) !! k
      = match StorageManager.strategiesUsed (getStatistics (storage startEngine)) !! k with
        | Some n =>
            if bool_decide (entryStrategy entry = Some k ∧ k ≠ "")
            then Some (S n) else Some n
        | None => None
        end.
Proof.
  exact (makeChoice_counts_strategy startEngine "A" "2024-05-01T10:00:00.000Z"
           _ afterA afterA_step).
Defined.

(** X9: reaching a resolution makes the scenario available: after a
    successful [makeChoice] that returns a node of type ["resolution"],
    every entry of the index that carries the id of the loaded scenario is
    among the available scenarios, locked or not. *)
Theorem completion_unlocks e sc id now n e' idx s :
  currentScenario e = Some sc →
  makeChoice id now e = (Return (JsNode n), e') →
  type n = Some "resolution" →
  scenarioIndex e = Some idx → s ∈ idx → Some (info_id s) = sid sc →
  s ∈ getAvailableScenarios e'.
Proof.
  intros Hsc Hm Htype Hidx Hs Hid.
  apply makeChoice_Return in Hm
    as (sc' & ns & here & n0 & cs & c & Hsc' & _ & _ & _ & _ & _ & _ & Hv & ->).
  assert (sc' = sc) as -> by congruence.
  apply elem_of_getAvailableScenarios. exists idx. split; [done|]. split; [done|].
  right. unfold completedIn. simpl. rewrite loadData_storageAfterChoice. simpl.
  rewrite <- Hv. simpl. rewrite (bool_decide_eq_true_2 _ Htype). simpl.
  rewrite Hid.
  destruct (bool_decide (sid sc ∈ _)) eqn:Hb; simpl.
  - by apply bool_decide_eq_true in Hb.
  - apply elem_of_app. right. apply list_elem_of_here.
Qed.

Lemma completion_unlocks_witness :
  type {| type := Some "resolution"; choices := Some [] |} = Some "resolution" ∧
  {| info_id := "scenario-001"; file := "scenarios/scenario-001.json";
     unlocked := true |} ∈ getAvailableScenarios afterB.
Proof.
  split; [reflexivity|].
  apply (completion_unlocks afterA sampleScenario "B" "2024-05-01T10:01:00.000Z"
           {| type := Some "resolution"; choices := Some [] |} afterB sampleIndex);
    [reflexivity | exact afterB_step | reflexivity | reflexivity
    | apply list_elem_of_here | reflexivity].
Defined.

(** ** Going back several steps *)

Lemma canGoBack_false e : canGoBack e = false ↔ choiceHistory e = [].
Proof.
  unfold canGoBack. destruct (choiceHistory e); simpl; split; congruence.
Qed.

Lemma goBackLoop_spec sc ns steps :
  nodes sc = Some ns →
  ∀ e, currentScenario e = Some sc →
  ∃ e',
    goBackLoop steps e = (Return tt, e') ∧
    currentScenario e' = Some sc ∧
    choiceHistory e' = take (length (choiceHistory e) - steps) (choiceHistory e) ∧
    currentNode e'
    = match choiceHistory e !! (length (choiceHistory e) - steps)%nat with
      | Some x => Some (nodeId x)
      | None => currentNode e
      end.
Proof.
  intros Hns. induction steps as [|steps IH]; intros e Hsc.
  - exists e. simpl. rewrite Nat.sub_0_r, firstn_all.
    rewrite (proj2 (lookup_ge_None (choiceHistory e) _)) by lia. done.
  - simpl. destruct (canGoBack e) eqn:Hcan; simpl.
    2:{ apply canGoBack_false in Hcan. exists e. rewrite Hcan. done. }
    destruct (pop (choiceHistory e)) as [[rest x]|] eqn:Hpop.
    2:{ apply pop_None in Hpop. apply canGoBack_false in Hpop. congruence. }
    apply pop_Some in Hpop.
    rewrite (goBack_snoc e sc rest x Hsc Hpop).
    rewrite (getCurrentNode_nodeAt _ sc ns) by done.
    destruct (IH (wentBack sc rest x e) Hsc) as (e' & Hloop & Hsc' & Hh & Hc).
    exists e'. split; [exact Hloop|]. split; [exact Hsc'|].
    change (choiceHistory (wentBack sc rest x e)) with rest in Hh, Hc.
    change (currentNode (wentBack sc rest x e)) with (Some (nodeId x)) in Hc.
    rewrite Hpop, length_app. simpl.
    replace (length rest + 1 - S steps)%nat with (length rest - steps)%nat by lia.
    split.
    + rewrite Hh. rewrite take_app_le by lia. done.
    + rewrite Hc. destruct (decide (steps = 0)) as [->|Hne].
      * rewrite Nat.sub_0_r.
        rewrite (proj2 (lookup_ge_None rest _)) by lia.
        by rewrite list_lookup_middle.
      * destruct (decide (length rest = 0)) as [Hz|Hz].
        -- destruct rest; [|done]. simpl. done.
        -- rewrite lookup_app_l by lia.
           destruct (rest !! (length rest - steps)%nat) eqn:Hl; [done|].
           apply lookup_ge_None in Hl. lia.
Qed.

(** X10: on a loaded scenario the loop of [goBackToChoice(targetIndex)]
    raises no error and leaves the engine with the first [targetIndex]
    entries of the history and, as current node, the node of the entry at
    [targetIndex]; an index at or beyond the end of the history changes
    neither, and a negative one goes all the way back to an empty history.
    The call as a whole ends as the rendering of that engine ends. *)
Theorem goBackToChoice_spec present e sc ns (targetIndex : Z) :
  currentScenario e = Some sc → nodes sc = Some ns →
  ∃ e',
    goBackToChoice present targetIndex e = (present e', e') ∧
    currentScenario e' = Some sc ∧
    choiceHistory e' = take (Z.to_nat targetIndex) (choiceHistory e) ∧
    currentNode e'
    = match choiceHistory e !! Z.to_nat targetIndex with
      | Some x => Some (nodeId x)
      | None => currentNode e
      end.
Proof.
  intros Hsc Hns. unfold goBackToChoice.
  set (len := length (choiceHistory e)).
  destruct (goBackLoop_spec sc ns
              (Z.to_nat (Z.of_nat len - targetIndex)) Hns e Hsc)
    as (e' & Hloop & Hsc' & Hh & Hc).
  fold len in Hh, Hc.
  exists e'. split; [by rewrite Hloop|]. split; [exact Hsc'|].
  destruct (decide (Z.of_nat len ≤ targetIndex)%Z) as [Hge|Hlt].
  - replace (len - Z.to_nat (Z.of_nat len - targetIndex))%nat with len in Hh, Hc by lia.
    rewrite Hh, Hc.
    rewrite (proj2 (lookup_ge_None (choiceHistory e) len)) by (subst len; lia).
    rewrite (proj2 (lookup_ge_None (choiceHistory e) (Z.to_nat targetIndex)))
      by (fold len; lia).
    subst len. rewrite !take_ge by lia. done.
  - replace (len - Z.to_nat (Z.of_nat len - targetIndex))%nat
      with (Z.to_nat targetIndex) in Hh, Hc by lia.
    done.
Qed.

Lemma goBackToChoice_spec_witness :
  length (choiceHistory afterB) = 2 ∧
  ∃ e',
    goBackToChoice (fun _ => Throw TypeError) 1 afterB = (Throw TypeError, e') ∧
    currentScenario e' = Some sampleScenario ∧
    choiceHistory e' = take (Z.to_nat 1) (choiceHistory afterB) ∧
    currentNode e'
    = match choiceHistory afterB !! Z.to_nat 1 with
      | Some x => Some (nodeId x)
      | None => currentNode afterB
      end.
Proof.
  split; [reflexivity|].
  apply (goBackToChoice_spec (fun _ => Throw TypeError) afterB sampleScenario
           sampleNodes 1); reflexivity.
Defined.

(** ** The history as a path of the scenario *)

Lemma replay_snoc ns here history x :
  replay ns here (history ++ [x])
  = match replay ns here history with
    | Some there => replay ns there [x]
    | None => None
    end.
Proof.
  revert here. induction history as [|h history IH]; intros here.
  - simpl. destruct here as [k|]; [|done].
    destruct (String.eqb k (nodeId x)); [|done].
    destruct (ns !! k) as [n|]; [|done].
    by destruct (List.find _ (rawChoices n)).
  - simpl. destruct here as [k|]; [|done].
    destruct (String.eqb k (nodeId h)); [|done].
    destruct (ns !! k) as [n|]; [|done].
    destruct (List.find _ (rawChoices n)) as [c|]; [|done].
    apply IH.
Qed.

Lemma replay_last ns there x final :
  replay ns there [x] = Some final → there = Some (nodeId x).
Proof.
  simpl. destruct there as [k|]; [|done].
  destruct (String.eqb_spec k (nodeId x)) as [->|]; [done | discriminate].
Qed.

(** On the engines reachable on a scenario the history is a path from
    ["start"] to the current node, recorded at nodes with non-empty ids. *)
Lemma reachable_history sc ns e :
  nodes sc = Some ns → reachable sc e →
  currentScenario e = Some sc ∧
  replay ns (Some "start") (choiceHistory e) = Some (currentNode e) ∧
  Forall (fun h => nodeId h ≠ "") (choiceHistory e).
Proof.
  intros Hns Hreach.
  induction Hreach as [fetch id e e0 Hload
                      | e id now r e' Hreach (Hsc & IH & Hne) Hm
                      | e r e' Hreach (Hsc & IH & Hne) Hb
                      | e Hreach (Hsc & IH & Hne)].
  - apply loadScenario_Return in Hload as (_ & Hsc & Hcur & Hh & _).
    rewrite Hh, Hcur. by repeat split.
  - destruct r as [v|err].
    2:{ apply makeChoice_Throw in Hm as ->. done. }
    apply makeChoice_Return in Hm
      as (sc' & ns' & here & n & cs & c & Hsc' & Hns' & Hhere & Hnonempty & Hn & Hcs & Hf & _ & ->).
    assert (sc' = sc) as -> by congruence.
    assert (ns' = ns) as -> by congruence.
    split; [done|]. simpl. split.
    + rewrite replay_snoc, IH, Hhere. simpl.
      rewrite String.eqb_refl, Hn. unfold rawChoices. rewrite Hcs. simpl.
      by rewrite Hf.
    + apply Forall_app. split; [done|]. by apply Forall_cons.
  - destruct (pop (choiceHistory e)) as [[rest x]|] eqn:Hpop.
    + apply pop_Some in Hpop.
      rewrite (goBack_snoc e sc rest x Hsc Hpop) in Hb. injection Hb as _ <-.
      split; [done|]. simpl.
      rewrite Hpop in Hne. apply Forall_app in Hne as [Hrest _].
      split; [|done].
      rewrite Hpop, replay_snoc in IH.
      destruct (replay ns (Some "start") rest) as [there|]; [|done].
      apply replay_last in IH. by subst.
    + apply pop_None in Hpop. rewrite (goBack_empty e Hpop) in Hb.
      injection Hb as _ <-. done.
  - unfold restartScenario. rewrite Hsc. by repeat split.
Qed.

(** X11: the history always is a path of the loaded scenario that leads to
    the current node: starting at ["start"], every entry was recorded at the
    node reached so far and names a choice listed there, and the [nextNode]
    of the last choice is the current node.  This holds after the load and
    after every [makeChoice], [goBack] and [restartScenario] that follows. *)
Theorem history_replays_to_currentNode sc ns e :
  nodes sc = Some ns → reachable sc e →
  replay ns (Some "start") (choiceHistory e) = Some (currentNode e).
Proof.
  intros Hns Hreach.
  by destruct (reachable_history sc ns e Hns Hreach) as (_ & H & _).
Qed.

Lemma history_replays_to_currentNode_witness :
  reachable sampleScenario afterB ∧
  replay sampleNodes (Some "start") (choiceHistory afterB) = Some (currentNode afterB).
Proof.
  split; [exact afterB_reachable|].
  apply (history_replays_to_currentNode sampleScenario sampleNodes afterB);
    [reflexivity | exact afterB_reachable].
Defined.

(** ** Loading, starting up and resuming *)

(** X12: a call of [loadScenario] never writes to storage and never leaves
    [isLoading] set.  When it throws, whatever the cause, the engine is as
    before the call; when it returns, the scenario returned passed
    validation and is the active one, at ["start"] with an empty history. *)
Theorem loadScenario_outcome fetch id e :
  match loadScenario fetch id e with
  | (Throw _, e') => e' = setLoading false e
  | (Return sc, e') =>
      validateScenario sc = true ∧
      e' = {| currentScenario := Some sc;
              currentNode := Some "start";
              choiceHistory := [];
              scenarioIndex := scenarioIndex e;
              isLoading := false;
              storage := storage e |}
  end.
Proof.
  unfold loadScenario.
  destruct (loadScenarioBody fetch id (setLoading true e)) as [[sc|err] e1] eqn:Hb.
  - by apply loadScenarioBody_Return in Hb as [Hv ->].
  - by apply loadScenarioBody_Throw in Hb as ->.
Qed.

Lemma storage_initialize response e :
  storage (initialize response e).2 = storage e.
Proof.
  unfold initialize, loadScenarioIndex. simpl.
  by destruct response as [|[] status [[|idx]|]].
Qed.

(** X13: progress survives a restart of the application.  After a
    successful [makeChoice] on a validated scenario that reaches a node
    which is not a resolution, a new engine on the same storage is handed,
    by [initialize], the scenario id, the current node and the history of
    the old one; and [resumeFromProgress] on it, when the index lists the
    scenario and its file holds the same document, returns the same node and
    restores the same scenario, current node and history. *)
Theorem resume_restores_position fetch response e sc id now n e1 idx info status :
  currentScenario e = Some sc → validateScenario sc = true →
  makeChoice id now e = (Return (JsNode n), e1) →
  type n ≠ Some "resolution" →
  let saved :=
    {| StorageManager.currentScenario := sid sc;
       StorageManager.currentNode := currentNode e1;
       StorageManager.choiceHistory := choiceHistory e1 |} in
  let e2 := (initialize response (GameEngine.new (storage e1))).2 in
  (initialize response (GameEngine.new (storage e1))).1 = Some saved ∧
  (scenarioIndex e2 = Some idx →
   List.find (fun s => bool_decide (Some (info_id s) = sid sc)) idx = Some info →
   fetch (file info) = Responded true status (Some sc) →
   ∃ e3,
     resumeFromProgress fetch saved e2 = (Return (JsNode n), e3) ∧
     currentScenario e3 = Some sc ∧
     currentNode e3 = currentNode e1 ∧
     choiceHistory e3 = choiceHistory e1).
Proof.
  intros Hsc Hv Hm Htype saved e2.
  apply makeChoice_Return in Hm
    as (sc' & ns & here & n0 & cs & c & Hsc' & Hns & _ & _ & _ & _ & _ & Hnode & ->).
  assert (sc' = sc) as -> by congruence.
  symmetry in Hnode.
  destruct (nodeAt_JsNode_inv ns _ n Hnode) as (k & Hnext & Hk & Hlook).
  pose proof (proj1 (validateScenario_validates sc) Hv) as ((s & Hsid & Hs) & _).
  split.
  - unfold initialize. simpl.
    pose proof (storage_initialize response
                  (GameEngine.new
                     (storage (advanced sc ns here id now c e)))) as Hst.
    unfold initialize in Hst. simpl in Hst. rewrite Hst. simpl.
    unfold StorageManager.loadProgress.
    rewrite loadData_storageAfterChoice, Hnode. simpl.
    rewrite (bool_decide_eq_false_2 _ Htype). simpl.
    rewrite Hsid, Hnext.
    apply truthy_Some in Hs, Hk. rewrite Hs, Hk. simpl.
    subst saved. simpl. by rewrite Hsid, Hnext.
  - intros Hidx Hfind Hfetch.
    unfold resumeFromProgress. subst saved. simpl.
    rewrite (loadScenario_fetched fetch e2 idx (sid sc) info status sc Hidx Hfind Hfetch).
    rewrite Hv.
    rewrite (getCurrentNode_nodeAt _ sc ns) by done.
    simpl. rewrite Hnode. eexists. split; [reflexivity|]. done.
Qed.

Lemma resume_restores_position_witness :
  type {| type := Some "scene"; choices := Some [choiceB] |} ≠ Some "resolution" ∧
  (initialize (IndexResponded true 200 (Some (IndexScenarios sampleIndex)))
     (GameEngine.new (storage afterA))).1
  = Some {| StorageManager.currentScenario := sid sampleScenario;
            StorageManager.currentNode := currentNode afterA;
            StorageManager.choiceHistory := choiceHistory afterA |}.
Proof.
  split; [discriminate|].
  exact (proj1 (resume_restores_position sampleFetch
                  (IndexResponded true 200 (Some (IndexScenarios sampleIndex)))
                  startEngine sampleScenario "A" "2024-05-01T10:00:00.000Z"
                  {| type := Some "scene"; choices := Some [choiceB] |} afterA
                  sampleIndex
                  {| info_id := "scenario-001"; file := "scenarios/scenario-001.json";
                     unlocked := true |} 200
                  eq_refl sampleScenario_valid afterA_step
                  ltac:(discriminate))).
Defined.

(** X14: a finished scenario is not resumed.  After a successful
    [makeChoice] that returns a node of type ["resolution"], [initialize] on
    an engine with that storage reports no saved progress. *)
Theorem no_resume_after_resolution response e id now n e1 e0 :
  makeChoice id now e = (Return (JsNode n), e1) →
  type n = Some "resolution" →
  storage e0 = storage e1 →
  (initialize response e0).1 = None.
Proof.
  intros Hm Htype Hst.
  apply makeChoice_Return in Hm
    as (sc & ns & here & n0 & cs & c & _ & _ & _ & _ & _ & _ & _ & Hnode & ->).
  pose proof (storage_initialize response e0) as Hinit.
  unfold initialize in *. simpl in *. rewrite Hinit, Hst. simpl.
  unfold StorageManager.loadProgress.
  rewrite loadData_storageAfterChoice, <- Hnode. simpl.
  by rewrite (bool_decide_eq_true_2 _ Htype).
Qed.

Lemma no_resume_after_resolution_witness :
  type {| type := Some "resolution"; choices := Some [] |} = Some "resolution" ∧
  (initialize IndexRejected (GameEngine.new (storage afterB))).1 = None.
Proof.
  split; [reflexivity|].
  apply (no_resume_after_resolution IndexRejected afterA "B"
           "2024-05-01T10:01:00.000Z"
           {| type := Some "resolution"; choices := Some [] |} afterB
           (GameEngine.new (storage afterB)));
    [exact afterB_step | reflexivity | reflexivity].
Defined.

(** X15: when the index file cannot be fetched, is not ok or cannot be
    parsed, [loadScenarioIndex] installs the built-in index: its scenario is
    available whatever the storage holds, and a later [loadScenario] does
    not fail on the index.  An index file that parses to [null] is installed
    as it is, without fallback: no scenario is available then, and every
    [loadScenario] throws a [TypeError] and leaves the engine as it was. *)
Theorem loadScenarioIndex_fallback response e :
  match response with
  | IndexResponded true _ (Some (IndexScenarios scenarios)) =>
      scenarioIndex (loadScenarioIndex response e) = Some scenarios
  | IndexResponded true _ (Some IndexNull) =>
      scenarioIndex (loadScenarioIndex response e) = None ∧
      getAvailableScenarios (loadScenarioIndex response e) = [] ∧
      ∀ fetch id,
        loadScenario fetch id (loadScenarioIndex response e)
        = (Throw TypeError, setLoading false (loadScenarioIndex response e))
  | _ =>
      scenarioIndex (loadScenarioIndex response e) = Some fallbackIndex ∧
      getAvailableScenarios (loadScenarioIndex response e) = fallbackIndex ∧
      ∀ fetch id,
        (loadScenario fetch id (loadScenarioIndex response e)).1 ≠ Throw TypeError
  end.
Proof.
  assert (Hfallback : ∀ fetch id,
            (loadScenario fetch id (setIndex (Some fallbackIndex) e)).1
            ≠ Throw TypeError).
  { intros fetch id. unfold loadScenario, loadScenarioBody. simpl.
    destruct (bool_decide (Some "scenario-001" = id)); simpl; [|discriminate].
    destruct (fetch "scenarios/scenario-001.json") as [|ok status body];
      simpl; [discriminate|].
    destruct ok; simpl; [|discriminate].
    destruct body as [data|]; simpl; [|discriminate].
    destruct (validateScenario data); simpl; discriminate. }
  destruct response as [|[] status [[|idx]|]]; simpl; done.
Qed.

(** ** Preferences *)

(** X16: [updatePreferences] overwrites the fields given and keeps the
    others; saved progress, completed scenarios and statistics read as
    before, and applying the same update twice is the same as once. *)
Theorem updatePreferences_spec patch sm :
  getUserPreferences (updatePreferences patch sm)
  = spreadPreferences (getUserPreferences sm) patch ∧
  StorageManager.loadProgress (updatePreferences patch sm)
  = StorageManager.loadProgress sm ∧
  completedIn (updatePreferences patch sm) = completedIn sm ∧
  getStatistics (updatePreferences patch sm) = getStatistics sm ∧
  getUserPreferences (updatePreferences patch (updatePreferences patch sm))
  = getUserPreferences (updatePreferences patch sm).
Proof.
  assert (H : ∀ sm',
             StorageManager.loadData (updatePreferences patch sm')
             = {| StorageManager.userProgress :=
                    StorageManager.userProgress (StorageManager.loadData sm');
                  StorageManager.completedScenarios := completedIn sm';
                  StorageManager.userPreferences :=
                    spreadPreferences (getUserPreferences sm') patch;
                  StorageManager.statistics := getStatistics sm' |}).
  { intros sm'. unfold updatePreferences. apply loadData_saveData. }
  unfold getUserPreferences, StorageManager.loadProgress, completedIn, getStatistics.
  rewrite !H. simpl. repeat split.
  unfold getUserPreferences. rewrite H. simpl.
  unfold spreadPreferences. simpl.
  by destruct (patchViewMode patch), (patchAutoSave patch), (patchSoundEnabled patch).
Qed.

(** ** Bounds of the progress percentage *)

Lemma percentage_bounds (currentProgress totalNodes : nat) :
  (0 < currentProgress)%nat →
  (0 < percentage currentProgress totalNodes)%Q ∧
  (percentage currentProgress totalNodes <= 100)%Q ∧
  ((percentage currentProgress totalNodes == 100)%Q
   ↔ (totalNodes ≤ currentProgress)%nat).
Proof.
  intros Hpos. unfold percentage. destruct totalNodes as [|m].
  - split; [done|]. split; [apply Qle_refl|]. split; [lia | reflexivity].
  - set (x := (inject_Z (Z.of_nat currentProgress) / inject_Z (Z.of_nat (S m)) * 100)%Q).
    assert (Hx0 : (0 < x)%Q).
    { subst x. unfold Qlt, Qdiv, Qmult, Qinv, inject_Z. simpl. lia. }
    assert (Hx100 : (100 <= x)%Q ↔ (S m ≤ currentProgress)%nat).
    { subst x. unfold Qle, Qdiv, Qmult, Qinv, inject_Z. simpl. lia. }
    split; [by apply Q.min_glb_lt|]. split; [apply Q.le_min_r|].
    rewrite <- Hx100. apply Q.min_r_iff.
Qed.

(** X17: on a loaded scenario the progress percentage lies above 0 and at
    most at 100, and it is 100 exactly when the history is at least as long
    as the number of nodes minus one; the object also carries the length of
    the history and the answer of [canGoBack]. *)
Theorem getProgress_bounds e sc ns :
  currentScenario e = Some sc → nodes sc = Some ns →
  ∃ p,
    getProgress e = Return (Some p) ∧
    (0 < progressPercent p)%Q ∧
    (progressPercent p <= 100)%Q ∧
    ((progressPercent p == 100)%Q
     ↔ (size ns ≤ length (choiceHistory e) + 1)%nat) ∧
    choicesMade p = length (choiceHistory e) ∧
    progressCanGoBack p = canGoBack e.
Proof.
  intros Hsc Hns. unfold getProgress. rewrite Hsc, Hns.
  rewrite (isScenarioComplete_nodeAt e sc ns Hsc Hns).
  eexists. split; [reflexivity|]. simpl.
  destruct (percentage_bounds (length (choiceHistory e) + 1) (size ns))
    as (H1 & H2 & H3); [lia|].
  done.
Qed.

Lemma getProgress_bounds_witness :
  ∃ p,
    getProgress afterB = Return (Some p) ∧
    (0 < progressPercent p)%Q ∧
    (progressPercent p <= 100)%Q ∧
    ((progressPercent p == 100)%Q
     ↔ (size sampleNodes ≤ length (choiceHistory afterB) + 1)%nat) ∧
    choicesMade p = length (choiceHistory afterB) ∧
    progressCanGoBack p = canGoBack afterB.
Proof.
  apply (getProgress_bounds afterB sampleScenario sampleNodes); reflexivity.
Defined.

(** ** Offered choices are accepted, and a step back can be redone *)

(** X18: every choice [getAvailableChoices] returns can be made:
    [makeChoice] with its id returns normally.  The choice it takes is the
    first choice of the current node's list that carries that id, which
    need not be the one that was offered: the engine moves to the
    [nextNode] of that first choice and records it. *)
Theorem available_choice_is_accepted e avail c now :
  getAvailableChoices e = Return avail → c ∈ avail →
  ∃ before c' after here v e',
    currentChoices e = before ++ c' :: after ∧
    (∀ x, x ∈ before → cid x ≠ cid c) ∧
    cid c' = cid c ∧
    currentNode e = Some here ∧
    makeChoice (cid c) now e = (Return v, e') ∧
    currentNode e' = nextNode c' ∧
    choiceHistory e' = choiceHistory e ++ [entryFor here (cid c) now c'].
Proof.
  intros Havail Hc. unfold getAvailableChoices in Havail.
  destruct (getCurrentNode e) as [[| |n|]|err] eqn:Hnode;
    try (injection Havail as <-; by apply elem_of_nil in Hc); [|discriminate].
  destruct (choices n) as [cs|] eqn:Hcs;
    [|injection Havail as <-; by apply elem_of_nil in Hc].
  injection Havail as <-. apply elem_of_List_filter in Hc as [Hc _].
  destruct (getCurrentNode_JsNode e n Hnode)
    as (sc & ns & here & Hsc & Hns & Hcur & Hne & Hn).
  destruct (List.find (fun c0 => String.eqb (cid c0) (cid c)) cs) as [c'|] eqn:Hf.
  2:{ by destruct (proj1 (find_cid_None cs (cid c)) Hf c Hc). }
  destruct (find_cid_split cs c' (cid c) Hf) as (before & after & Hsplit & Hb & Hid).
  exists before, c', after, here, (nodeAt ns (nextNode c')),
    (advanced sc ns here (cid c) now c' e).
  split; [unfold currentChoices; by rewrite Hnode, Hcs|].
  split; [done|]. split; [done|]. split; [done|].
  split; [by apply makeChoice_found with n cs|]. done.
Qed.

Lemma available_choice_is_accepted_witness :
  getAvailableChoices startEngine = Return [choiceA] ∧
  ∃ before c' after here v e',
    currentChoices startEngine = before ++ c' :: after ∧
    (∀ x, x ∈ before → cid x ≠ cid choiceA) ∧
    cid c' = cid choiceA ∧
    currentNode startEngine = Some here ∧
    makeChoice (cid choiceA) "2024-05-01T10:00:00.000Z" startEngine = (Return v, e') ∧
    currentNode e' = nextNode c' ∧
    choiceHistory e'
    = choiceHistory startEngine
      ++ [entryFor here (cid choiceA) "2024-05-01T10:00:00.000Z" c'].
Proof.
  assert (H : getAvailableChoices startEngine = Return [choiceA])
    by (vm_compute; reflexivity).
  split; [exact H|].
  apply (available_choice_is_accepted startEngine [choiceA] choiceA
           "2024-05-01T10:00:00.000Z" H).
  apply list_elem_of_here.
Defined.

(** X19: a step back can be redone.  On an engine reached by navigating a
    loaded scenario, after [goBack] has removed the last entry of the
    history, [makeChoice] with the choice id of that entry returns normally
    and leads to the node the engine was at before going back, with an
    entry for the same node and the same choice at the end of the history. *)
Theorem makeChoice_redoes_goBack sc ns e rest x now :
  nodes sc = Some ns → reachable sc e →
  choiceHistory e = rest ++ [x] →
  ∃ v e' entry,
    makeChoice (choiceId x) now (goBack e).2 = (Return v, e') ∧
    currentNode e' = currentNode e ∧
    choiceHistory e' = rest ++ [entry] ∧
    nodeId entry = nodeId x ∧
    choiceId entry = choiceId x.
Proof.
  intros Hns Hreach Hh.
  destruct (reachable_history sc ns e Hns Hreach) as (Hsc & Hreplay & Hne).
  rewrite Hh in Hreplay, Hne. apply Forall_app in Hne as [_ Hx].
  apply Forall_cons in Hx as [Hx _].
  rewrite replay_snoc in Hreplay.
  destruct (replay ns (Some "start") rest) as [there|]; [|done].
  pose proof (replay_last ns there x _ Hreplay) as ->.
  simpl in Hreplay. rewrite String.eqb_refl in Hreplay.
  destruct (ns !! nodeId x) as [n|] eqn:Hn; [|done].
  unfold rawChoices in Hreplay.
  destruct (choices n) as [cs|] eqn:Hcs; [|done]. simpl in Hreplay.
  destruct (List.find _ cs) as [c|] eqn:Hf; [|done].
  injection Hreplay as Hnext.
  rewrite (goBack_snoc e sc rest x Hsc Hh). simpl.
  exists (nodeAt ns (nextNode c)),
    (advanced sc ns (nodeId x) (choiceId x) now c (wentBack sc rest x e)),
    (entryFor (nodeId x) (choiceId x) now c).
  split; [by apply makeChoice_found with n cs|]. done.
Qed.

Lemma makeChoice_redoes_goBack_witness :
  reachable sampleScenario afterB ∧
  ∃ v e' entry,
    makeChoice "B" "2024-05-01T10:05:00.000Z" (goBack afterB).2 = (Return v, e') ∧
    currentNode e' = currentNode afterB ∧
    choiceHistory e'
    = [entryFor "start" "A" "2024-05-01T10:00:00.000Z" choiceA] ++ [entry] ∧
    nodeId entry = "nodeX" ∧
    choiceId entry = "B".
Proof.
  split; [exact afterB_reachable|].
  exact (makeChoice_redoes_goBack sampleScenario sampleNodes afterB
           [entryFor "start" "A" "2024-05-01T10:00:00.000Z" choiceA]
           (entryFor "nodeX" "B" "2024-05-01T10:01:00.000Z" choiceB)
           "2024-05-01T10:05:00.000Z" eq_refl afterB_reachable eq_refl).
Defined.
